(** * Bear MCP server: URL builder, tool handlers and callback receiver

    A shallow embedding of [src/index.ts] (class [BearMCPServer]) and of the
    callback-capturing variant of the same class.  A JavaScript string is
    modelled by the bytes of its generalised UTF-8 encoding (Rocq [string]):
    a surrogate pair is the four bytes of its code point, a surrogate on its
    own the three bytes [ED A0..BF 80..BF].  The strings without unpaired
    surrogates are the well-formed UTF-8 ones; on the others
    [encodeURIComponent] raises [URIError]. *)

From Stdlib Require Import ZArith Ascii String List.
From stdpp Require Import base strings list gmap pretty.

Local Open Scope string_scope.
#[local] Set Warnings "-register-all".

(** ** The JavaScript built-ins the class relies on *)

Module JS.

(** The character with code 34 (the double quote). *)
Definition dquote : ascii := "034"%char.

Definition code (c : ascii) : nat := nat_of_ascii c.

Definition between (lo hi : nat) (c : ascii) : bool :=
  (lo <=? code c)%nat && (code c <=? hi)%nat.

Definition is_digit (c : ascii) : bool := between 48 57 c.
Definition is_upper (c : ascii) : bool := between 65 90 c.
Definition is_lower (c : ascii) : bool := between 97 122 c.

Definition ascii_eqb (a b : ascii) : bool := Ascii.eqb a b.

(** [uriUnreserved]: the characters [encodeURIComponent] leaves alone,
    [A-Z a-z 0-9 - _ . ! ~ * ' ( )]. *)
Definition uriUnreserved (c : ascii) : bool :=
  is_upper c || is_lower c || is_digit c
  || existsb (ascii_eqb c) ["-"; "_"; "."; "!"; "~"; "*"; "'"; "("; ")"]%char.

Definition hexDigit (n : nat) : ascii :=
  if (n <? 10)%nat then ascii_of_nat (48 + n) else ascii_of_nat (55 + n).

(** One byte as [%XX], upper-case hexadecimal. *)
Definition percentByte (c : ascii) : string :=
  String "%" (String (hexDigit (code c / 16)) (String (hexDigit (code c mod 16)) "")).

Definition encodeChar (c : ascii) : string :=
  if uriUnreserved c then String c "" else percentByte c.

(** The bytes of a string, each left alone or written as [%XX]. *)
Fixpoint percentEncode (s : string) : string :=
  match s with
  | "" => ""
  | String c rest => encodeChar c +:+ percentEncode rest
  end.

Definition hexValue (c : ascii) : option nat :=
  if is_digit c then Some (code c - 48)
  else if between 65 70 c then Some (code c - 55)
  else if between 97 102 c then Some (code c - 87)
  else None.

(** Percent-decoding of a byte sequence (URL standard): a [%] followed by
    two hexadecimal digits is one byte, any other [%] stands for itself. *)
Fixpoint percentDecode (s : string) : string :=
  match s with
  | "" => ""
  | String c rest =>
      if ascii_eqb c "%" then
        match rest with
        | String a (String b rest') =>
            match hexValue a, hexValue b with
            | Some x, Some y => String (ascii_of_nat (16 * x + y)) (percentDecode rest')
            | _, _ => String c (percentDecode rest)
            end
        | _ => String c (percentDecode rest)
        end
      else String c (percentDecode rest)
  end.

(** [s.split(sep)] for a one-character separator: never empty, the empty
    string splits into one empty piece. *)
Fixpoint split (sep : ascii) (s : string) : list string :=
  match s with
  | "" => [""]
  | String c rest =>
      if ascii_eqb c sep then "" :: split sep rest
      else match split sep rest with
           | piece :: pieces => String c piece :: pieces
           | [] => [String c ""]
           end
  end.

(** The part before the first [sep] and the part after it; without any
    [sep] the whole string and the empty string. *)
Fixpoint splitFirst (sep : ascii) (s : string) : string * string :=
  match s with
  | "" => ("", "")
  | String c rest =>
      if ascii_eqb c sep then ("", rest)
      else let '(a, b) := splitFirst sep rest in (String c a, b)
  end.

(** [parts.join(sep)]. *)
Definition join (sep : string) (parts : list string) : string :=
  String.concat sep parts.

Definition nonEmpty (s : string) : bool :=
  match s with "" => false | _ => true end.

(** Whether the character [c] occurs in [s]. *)
Fixpoint occurs (c : ascii) (s : string) : bool :=
  match s with
  | "" => false
  | String c' rest => ascii_eqb c' c || occurs c rest
  end.

Definition replacePlus (s : string) : string :=
  string_of_list_ascii
    (map (fun c => if ascii_eqb c "+" then " "%char else c) (list_ascii_of_string s)).

(** *** UTF-8 decoding with replacement (Encoding standard)

    The decoder keeps well-formed sequences and puts U+FFFD, here its
    three bytes, for every ill-formed one; the offending byte is then read
    again as the start of a sequence. *)

Record utf8State : Type := Utf8State {
  pending : list ascii;   (* bytes of the sequence read so far, last first *)
  needed : nat;           (* continuation bytes still expected *)
  lower : nat;            (* bounds of the next continuation byte *)
  upper : nat
}.

Definition utf8Init : utf8State := Utf8State [] 0 128 191.

Definition replacement : string :=
  String (ascii_of_nat 239) (String (ascii_of_nat 191) (String (ascii_of_nat 189) "")).

Definition utf8Lead (b : ascii) : string * utf8State :=
  let n := code b in
  if (n <=? 127)%nat then (String b "", utf8Init)
  else if between 194 223 b then ("", Utf8State [b] 1 128 191)
  else if (n =? 224)%nat then ("", Utf8State [b] 2 160 191)
  else if (n =? 237)%nat then ("", Utf8State [b] 2 128 159)
  else if between 225 239 b then ("", Utf8State [b] 2 128 191)
  else if (n =? 240)%nat then ("", Utf8State [b] 3 144 191)
  else if (n =? 244)%nat then ("", Utf8State [b] 3 128 143)
  else if between 241 243 b then ("", Utf8State [b] 3 128 191)
  else (replacement, utf8Init).

Definition utf8Step (st : utf8State) (b : ascii) : string * utf8State :=
  match needed st with
  | O => utf8Lead b
  | S n =>
      if between (lower st) (upper st) b then
        match n with
        | O => (string_of_list_ascii (rev (b :: pending st)), utf8Init)
        | S _ => ("", Utf8State (b :: pending st) n 128 191)
        end
      else
        let '(out, st') := utf8Lead b in (replacement +:+ out, st')
  end.

Fixpoint utf8Decode (st : utf8State) (s : string) : string :=
  match s with
  | "" => match needed st with O => "" | S _ => replacement end
  | String b rest => let '(out, st') := utf8Step st b in out +:+ utf8Decode st' rest
  end.

(** [s.isWellFormed()]: no unpaired surrogate, which is to say that the
    bytes are well-formed UTF-8 and the decoder has nothing to replace. *)
Definition isWellFormed (s : string) : bool := String.eqb (utf8Decode utf8Init s) s.

(** [encodeURIComponent(s)]: the UTF-8 bytes of [s] percent-encoded, or
    [None] where it throws [URIError], which it does for a string with an
    unpaired surrogate. *)
Definition encodeURIComponent (s : string) : option string :=
  if isWellFormed s then Some (percentEncode s) else None.

(** *** [URLSearchParams]: the application/x-www-form-urlencoded parser *)

Definition formDecode (s : string) : string :=
  utf8Decode utf8Init (percentDecode (replacePlus s)).

Definition parseUrlencoded (query : string) : list (string * string) :=
  flat_map
    (fun piece =>
       if nonEmpty piece
       then let '(name, value) := splitFirst "=" piece in [(formDecode name, formDecode value)]
       else [])
    (split "&" query).

(** *** What the URL parser looks at first

    Leading and trailing C0 controls and spaces are dropped from the
    input, then every tab and newline.  The state machine starts on what
    is left: a scheme is a letter followed by letters, digits and [+ - .]
    up to a colon; without a scheme, two slashes (or backslashes, for a
    base with a special scheme) open an authority. *)

Definition isC0OrSpace (c : ascii) : bool := (code c <=? 32)%nat.

Definition isTabOrNewline (c : ascii) : bool := existsb (Nat.eqb (code c)) [9; 10; 13]%nat.

Fixpoint dropLeading (s : string) : string :=
  match s with
  | "" => ""
  | String c rest => if isC0OrSpace c then dropLeading rest else s
  end.

Fixpoint dropTrailing (s : string) : string :=
  match s with
  | "" => ""
  | String c rest =>
      match dropTrailing rest with
      | "" => if isC0OrSpace c then "" else String c ""
      | kept => String c kept
      end
  end.

Fixpoint removeTabNewline (s : string) : string :=
  match s with
  | "" => ""
  | String c rest =>
      if isTabOrNewline c then removeTabNewline rest else String c (removeTabNewline rest)
  end.

Definition urlInput (s : string) : string :=
  removeTabNewline (dropTrailing (dropLeading s)).

Definition is_alpha (c : ascii) : bool := is_upper c || is_lower c.

Definition schemeChar (c : ascii) : bool :=
  is_alpha c || is_digit c || existsb (ascii_eqb c) ["+"; "-"; "."]%char.

Fixpoint colonEndsScheme (s : string) : bool :=
  match s with
  | "" => false
  | String c rest =>
      if ascii_eqb c ":" then true
      else if schemeChar c then colonEndsScheme rest else false
  end.

Definition hasScheme (input : string) : bool :=
  match input with
  | String c rest => is_alpha c && colonEndsScheme rest
  | "" => false
  end.

Definition isSlash (c : ascii) : bool := ascii_eqb c "/" || ascii_eqb c "\".

Definition startsAuthority (input : string) : bool :=
  match input with
  | String a (String b _) => isSlash a && isSlash b
  | _ => false
  end.

End JS.

(** ** Errors *)

Inductive ErrorCode : Type := MethodNotFound | InvalidParams | InternalError.

(** The JSON-RPC numbers of the SDK's [ErrorCode] enumeration. *)
Definition errorNumber (c : ErrorCode) : Z :=
  match c with
  | MethodNotFound => -32601
  | InvalidParams => -32602
  | InternalError => -32603
  end.

Inductive jserror : Type :=
  | Error (message : string)                       (* new Error(message) *)
  | TypeError (message : string)                   (* raised by the engine *)
  | URIError (message : string)                    (* raised by encodeURIComponent *)
  | McpError (code : ErrorCode) (message : string). (* new McpError(code, message) *)

(** [error.message]; the SDK's [McpError] puts the code in front of its
    message. *)
Definition errorMessage (e : jserror) : string :=
  match e with
  | Error m | TypeError m | URIError m => m
  | McpError c m => "MCP error " +:+ pretty (errorNumber c) +:+ ": " +:+ m
  end.

(** ** Parameters of an action request *)

(** The values of a [Record<string, string | boolean>], together with the
    [undefined] and [null] the URL builder tests for.  Tool arguments
    ([args: any]) carry the same values: every property of every input
    schema is declared [string] or [boolean]. *)
Inductive pvalue : Type :=
  | PUndefined
  | PNull
  | PBool (b : bool)
  | PStr (s : string).

#[global] Instance pvalue_eq_dec : EqDecision pvalue.
Proof. solve_decision. Defined.

(** [String(value)]. *)
Definition toString (v : pvalue) : string :=
  match v with
  | PUndefined => "undefined"
  | PNull => "null"
  | PBool true => "true"
  | PBool false => "false"
  | PStr s => s
  end.

(** JavaScript truthiness, as tested by [if (args.x)]. *)
Definition truthy (v : pvalue) : bool :=
  match v with
  | PUndefined | PNull => false
  | PBool b => b
  | PStr s => JS.nonEmpty s
  end.

(** [value !== undefined && value !== null]. *)
Definition isDefined (v : pvalue) : bool :=
  match v with
  | PUndefined | PNull => false
  | _ => true
  end.

(** A parameter object by its own entries, in [Object.entries] order (the
    keys used by this program are never array indices, so that is the order
    of insertion). *)
Definition params : Type := list (string * pvalue).

Definition getParam (k : string) (p : params) : option pvalue :=
  snd <$> find (fun kv => String.eqb (fst kv) k) p.

(** [params[k] = v]: an existing key keeps its place, a new key goes last. *)
Fixpoint setParam (k : string) (v : pvalue) (p : params) : params :=
  match p with
  | [] => [(k, v)]
  | (k', v') :: rest =>
      if String.eqb k' k then (k, v) :: rest else (k', v') :: setParam k v rest
  end.

(** ** [buildBearURL] *)

Definition baseURL (action : string) : string := "bear://x-callback-url/" +:+ action.

(** [`${encodedKey}=${encodedValue}`], or [None] when one of the two calls
    of [encodeURIComponent] throws. *)
Definition queryPart (key : string) (value : pvalue) : option string :=
  match JS.encodeURIComponent key with
  | Some encodedKey =>
      match JS.encodeURIComponent (toString value) with
      | Some encodedValue => Some (encodedKey +:+ "=" +:+ encodedValue)
      | None => None
      end
  | None => None
  end.

(** The [for ... of Object.entries(params)] loop pushing onto [queryParts];
    an exception ends it. *)
Definition queryParts (p : params) : option (list string) :=
  fold_left
    (fun parts kv =>
       match parts with
       | Some pushed =>
           if isDefined (snd kv)
           then match queryPart (fst kv) (snd kv) with
                | Some part => Some (pushed ++ [part])%list
                | None => None
                end
           else Some pushed
       | None => None
       end)
    p (Some []).

Definition queryString (p : params) : option string := JS.join "&" <$> queryParts p.

(** The URL, or the [URIError] that [encodeURIComponent] throws and nothing
    in the builder catches. *)
Definition buildBearURL (action : string) (p : params) : string + jserror :=
  match queryString p with
  | Some query =>
      inl (if JS.nonEmpty query then baseURL action +:+ "?" +:+ query else baseURL action)
  | None => inr (URIError "URI malformed")
  end.

(** ** JSON values and [JSON.parse] *)

(** What [JSON.parse] returns, and what the decoder stores in
    [callbackData].  A number is kept as the decimal it was written as,
    [mantissa * 10 ^ exponent]; an object by its members as written
    (JavaScript keeps the last of several equal keys and lists array-index
    keys first; nothing below depends on either). *)
Inductive jsval : Type :=
  | JNull
  | JBool (b : bool)
  | JNum (mantissa exponent : Z)
  | JStr (s : string)
  | JArr (items : list jsval)
  | JObj (members : list (string * jsval)).

Module JSON.

Import JS.

Inductive token : Type :=
  | TLBracket | TRBracket | TLBrace | TRBrace | TComma | TColon
  | TString (s : string)
  | TNumber (mantissa exponent : Z)
  | TTrue | TFalse | TNull.

(** *** Numbers: an optional minus sign; [0] or a non-zero digit and more
    digits; optionally a point and digits; optionally [e] or [E], a sign
    and digits. *)

Fixpoint spanDigits (cs : list ascii) : list ascii * list ascii :=
  match cs with
  | c :: rest =>
      if is_digit c then let '(ds, tl) := spanDigits rest in (c :: ds, tl)
      else ([], cs)
  | [] => ([], [])
  end.

Definition digitsValue (ds : list ascii) : Z :=
  fold_left (fun acc c => 10 * acc + Z.of_nat (code c - 48))%Z ds 0%Z.

Definition intPartOk (ds : list ascii) : bool :=
  match ds with
  | [] => false
  | [_] => true
  | c :: _ => negb (ascii_eqb c "0")
  end.

Definition fracPart (cs : list ascii) : option (list ascii * list ascii) :=
  match cs with
  | c :: rest =>
      if ascii_eqb c "." then
        match spanDigits rest with
        | ([], _) => None
        | (ds, tl) => Some (ds, tl)
        end
      else Some ([], cs)
  | [] => Some ([], [])
  end.

Definition signedDigits (cs : list ascii) : option Z :=
  match spanDigits cs with
  | ([], _) => None
  | (ds, []) => Some (digitsValue ds)
  | (_, _ :: _) => None
  end.

Definition expPart (cs : list ascii) : option Z :=
  match cs with
  | [] => Some 0%Z
  | c :: rest =>
      if ascii_eqb c "e" || ascii_eqb c "E" then
        match rest with
        | s :: rest' =>
            if ascii_eqb s "+" then signedDigits rest'
            else if ascii_eqb s "-" then Z.opp <$> signedDigits rest'
            else signedDigits rest
        | [] => None
        end
      else None
  end.

Definition numberOf (cs : list ascii) : option token :=
  let '(negative, cs1) :=
    match cs with
    | c :: rest => if ascii_eqb c "-" then (true, rest) else (false, cs)
    | [] => (false, cs)
    end in
  let '(ints, cs2) := spanDigits cs1 in
  if intPartOk ints then
    match fracPart cs2 with
    | Some (fracs, cs3) =>
        match expPart cs3 with
        | Some e =>
            let m := digitsValue (ints ++ fracs)%list in
            Some (TNumber (if negative then - m else m)%Z (e - Z.of_nat (length fracs))%Z)
        | None => None
        end
    | None => None
    end
  else None.

Definition isNumberChar (c : ascii) : bool :=
  is_digit c || existsb (ascii_eqb c) ["-"; "+"; "."; "e"; "E"]%char.

(** *** Strings: raw bytes and [\uXXXX] code units *)

Inductive sitem : Type :=
  | SByte (c : ascii)
  | SUnit (cu : N).

Definition byteOfN (n : N) : ascii := ascii_of_N n.

(** UTF-8 of one code point (the three-byte form also for a code unit
    that is a surrogate on its own). *)
Definition utf8Encode (cp : N) : list ascii :=
  if (cp <? 128)%N then [byteOfN cp]
  else if (cp <? 2048)%N then
    [byteOfN (192 + cp / 64); byteOfN (128 + cp mod 64)]
  else if (cp <? 65536)%N then
    [byteOfN (224 + cp / 4096); byteOfN (128 + (cp / 64) mod 64); byteOfN (128 + cp mod 64)]
  else
    [byteOfN (240 + cp / 262144); byteOfN (128 + (cp / 4096) mod 64);
     byteOfN (128 + (cp / 64) mod 64); byteOfN (128 + cp mod 64)].

Definition isHighSurrogate (cu : N) : bool := (55296 <=? cu)%N && (cu <=? 56319)%N.
Definition isLowSurrogate (cu : N) : bool := (56320 <=? cu)%N && (cu <=? 57343)%N.

Fixpoint bytesOfItems (items : list sitem) : list ascii :=
  match items with
  | [] => []
  | SByte c :: rest => c :: bytesOfItems rest
  | SUnit hi :: ((SUnit lo :: rest') as rest) =>
      if isHighSurrogate hi && isLowSurrogate lo
      then (utf8Encode (65536 + (hi - 55296) * 1024 + (lo - 56320)) ++ bytesOfItems rest')%list
      else (utf8Encode hi ++ bytesOfItems rest)%list
  | SUnit cu :: rest => (utf8Encode cu ++ bytesOfItems rest)%list
  end.

Definition stringOfItems (acc : list sitem) : string :=
  string_of_list_ascii (bytesOfItems (rev acc)).

Definition escapeChar (c : ascii) : option ascii :=
  if ascii_eqb c dquote then Some dquote
  else if ascii_eqb c "\" then Some "\"%char
  else if ascii_eqb c "/" then Some "/"%char
  else if ascii_eqb c "b" then Some (ascii_of_nat 8)
  else if ascii_eqb c "f" then Some (ascii_of_nat 12)
  else if ascii_eqb c "n" then Some (ascii_of_nat 10)
  else if ascii_eqb c "r" then Some (ascii_of_nat 13)
  else if ascii_eqb c "t" then Some (ascii_of_nat 9)
  else None.

(** *** The lexer, one character at a time *)

Inductive lexmode : Type :=
  | LDefault
  | LString (acc : list sitem)
  | LEscape (acc : list sitem)
  | LUnicode (acc : list sitem) (digits : list nat)
  | LNumber (acc : list ascii).

Definition isWhitespace (c : ascii) : bool :=
  existsb (Nat.eqb (code c)) [32; 9; 10; 13]%nat.

Definition punctuation (c : ascii) : option token :=
  if ascii_eqb c "[" then Some TLBracket
  else if ascii_eqb c "]" then Some TRBracket
  else if ascii_eqb c "{" then Some TLBrace
  else if ascii_eqb c "}" then Some TRBrace
  else if ascii_eqb c "," then Some TComma
  else if ascii_eqb c ":" then Some TColon
  else None.

(** What may follow a number directly: white space or one of [, ] }]. *)
Definition afterNumber (c : ascii) : option (list token) :=
  if isWhitespace c then Some []
  else if ascii_eqb c "," then Some [TComma]
  else if ascii_eqb c "]" then Some [TRBracket]
  else if ascii_eqb c "}" then Some [TRBrace]
  else None.

Definition hex4 (ds : list nat) : N :=
  N.of_nat (fold_left (fun acc d => 16 * acc + d)%nat ds 0%nat).

Fixpoint lex (m : lexmode) (s : string) : option (list token) :=
  match s with
  | "" =>
      match m with
      | LDefault => Some []
      | LNumber acc => (fun t => [t]) <$> numberOf (rev acc)
      | _ => None
      end
  | String c rest =>
      match m with
      | LDefault =>
          if isWhitespace c then lex LDefault rest
          else if ascii_eqb c dquote then lex (LString []) rest
          else if ascii_eqb c "-" || is_digit c then lex (LNumber [c]) rest
          else match punctuation c with
               | Some t => cons t <$> lex LDefault rest
               | None =>
                   match s with
                   | String "t" (String "r" (String "u" (String "e" rest'))) =>
                       cons TTrue <$> lex LDefault rest'
                   | String "f" (String "a" (String "l" (String "s" (String "e" rest')))) =>
                       cons TFalse <$> lex LDefault rest'
                   | String "n" (String "u" (String "l" (String "l" rest'))) =>
                       cons TNull <$> lex LDefault rest'
                   | _ => None
                   end
               end
      | LString acc =>
          if ascii_eqb c dquote then cons (TString (stringOfItems acc)) <$> lex LDefault rest
          else if ascii_eqb c "\" then lex (LEscape acc) rest
          else if (code c <? 32)%nat then None
          else lex (LString (SByte c :: acc)) rest
      | LEscape acc =>
          if ascii_eqb c "u" then lex (LUnicode acc []) rest
          else match escapeChar c with
               | Some e => lex (LString (SByte e :: acc)) rest
               | None => None
               end
      | LUnicode acc digits =>
          match hexValue c with
          | Some d =>
              let digits' := (digits ++ [d])%list in
              if (length digits' =? 4)%nat
              then lex (LString (SUnit (hex4 digits') :: acc)) rest
              else lex (LUnicode acc digits') rest
          | None => None
          end
      | LNumber acc =>
          if isNumberChar c then lex (LNumber (c :: acc)) rest
          else match numberOf (rev acc), afterNumber c with
               | Some t, Some ts => (fun more => t :: ts ++ more)%list <$> lex LDefault rest
               | _, _ => None
               end
      end
  end.

(** *** The parser: a pushdown automaton over the tokens *)

(** An enclosing array or object that waits for the value being read. *)
Inductive frame : Type :=
  | FArr (done : list jsval)                         (* items so far, last first *)
  | FObj (done : list (string * jsval)) (key : string).

Inductive pstate : Type :=
  | PValue (stack : list frame)                       (* a value must follow *)
  | PArrFirst (stack : list frame)                    (* after [[]: a value or []] *)
  | PArrNext (stack : list frame) (done : list jsval) (* after an item: [,] or []] *)
  | PObjFirst (stack : list frame)                    (* after [{]: a key or [}] *)
  | PObjKey (stack : list frame) (done : list (string * jsval))
  | PObjColon (stack : list frame) (done : list (string * jsval)) (key : string)
  | PObjNext (stack : list frame) (done : list (string * jsval))
  | PDone (v : jsval).

(** A value is complete: hand it to the enclosing frame. *)
Definition complete (stack : list frame) (v : jsval) : pstate :=
  match stack with
  | [] => PDone v
  | FArr done :: stack' => PArrNext stack' (v :: done)
  | FObj done key :: stack' => PObjNext stack' ((key, v) :: done)
  end.

Definition beginValue (stack : list frame) (t : token) : option pstate :=
  match t with
  | TLBracket => Some (PArrFirst stack)
  | TLBrace => Some (PObjFirst stack)
  | TString s => Some (complete stack (JStr s))
  | TNumber m e => Some (complete stack (JNum m e))
  | TTrue => Some (complete stack (JBool true))
  | TFalse => Some (complete stack (JBool false))
  | TNull => Some (complete stack JNull)
  | _ => None
  end.

Definition pstep (st : pstate) (t : token) : option pstate :=
  match st, t with
  | PValue stack, _ => beginValue stack t
  | PArrFirst stack, TRBracket => Some (complete stack (JArr []))
  | PArrFirst stack, _ => beginValue (FArr [] :: stack) t
  | PArrNext stack done, TComma => Some (PValue (FArr done :: stack))
  | PArrNext stack done, TRBracket => Some (complete stack (JArr (rev done)))
  | PObjFirst stack, TRBrace => Some (complete stack (JObj []))
  | PObjFirst stack, TString k => Some (PObjColon stack [] k)
  | PObjKey stack done, TString k => Some (PObjColon stack done k)
  | PObjColon stack done k, TColon => Some (PValue (FObj done k :: stack))
  | PObjNext stack done, TComma => Some (PObjKey stack done)
  | PObjNext stack done, TRBrace => Some (complete stack (JObj (rev done)))
  | _, _ => None
  end.

Fixpoint prun (st : pstate) (ts : list token) : option jsval :=
  match ts with
  | [] => match st with PDone v => Some v | _ => None end
  | t :: rest =>
      match pstep st t with
      | Some st' => prun st' rest
      | None => None
      end
  end.

(** [JSON.parse(text)]: [Some v] for the value, [None] where it throws
    [SyntaxError]. *)
Definition parse (text : string) : option jsval :=
  match lex LDefault text with
  | Some ts => prun (PValue []) ts
  | None => None
  end.

End JSON.

(** Truthiness of a stored value.  A number is falsy when it is zero as a
    double: the decimal [m * 10 ^ e] is zero or rounds to zero, which is
    when it is at most [2 ^ -1075] in absolute value. *)
Definition numberIsZero (m e : Z) : bool :=
  (m =? 0)%Z || ((e <? 0)%Z && (Z.abs m * 2 ^ 1075 <=? 10 ^ (- e))%Z).

Definition jsTruthy (v : jsval) : bool :=
  match v with
  | JNull => false
  | JBool b => b
  | JNum m e => negb (numberIsZero m e)
  | JStr s => JS.nonEmpty s
  | JArr _ | JObj _ => true
  end.

(** ** Decoding a callback *)

(** [callbackData[key] = v] on an object created by [{}].  The one key that
    is not stored is [__proto__]: it names the prototype accessor, whose
    setter creates no own property (and ignores a string altogether). *)
Definition assign (key : string) (v : jsval) (callbackData : gmap string jsval)
  : gmap string jsval :=
  if String.eqb key "__proto__" then callbackData else <[key := v]> callbackData.

(** [!callbackData[key]], read for an own property ([undefined] is falsy). *)
Definition unset (callbackData : gmap string jsval) (key : string) : bool :=
  match callbackData !! key with
  | Some v => negb (jsTruthy v)
  | None => true
  end.

(** The four arms of the [if ... else if ...] chain in the decoding loop. *)
Inductive branch : Type :=
  | JsonArray        (* key === 'notes' || key === 'tags' *)
  | CommaSeparated   (* key === 'tags' && !callbackData[key] *)
  | Boolean          (* key === 'is_trashed' || key === 'pin' *)
  | Regular.

Definition selectBranch (callbackData : gmap string jsval) (key : string) : branch :=
  if String.eqb key "notes" || String.eqb key "tags" then JsonArray
  else if (if String.eqb key "tags" then unset callbackData key else false) then CommaSeparated
  else if String.eqb key "is_trashed" || String.eqb key "pin" then Boolean
  else Regular.

(** The value assigned to [callbackData[key]] in each arm. *)
Definition decodeEntry (callbackData : gmap string jsval) (key value : string) : jsval :=
  match selectBranch callbackData key with
  | JsonArray =>
      match JSON.parse value with
      | Some v => v
      | None => JStr value
      end
  | CommaSeparated =>
      if JS.nonEmpty value
      then JArr (JStr <$> List.filter JS.nonEmpty (JS.split "," value))
      else JArr []
  | Boolean => JBool (String.eqb value "yes")
  | Regular => JStr value
  end.

(** [for (const [key, value] of searchParams.entries())]. *)
Definition decodeEntries (entries : list (string * string)) : gmap string jsval :=
  fold_left
    (fun callbackData kv => assign (fst kv) (decodeEntry callbackData (fst kv) (snd kv)) callbackData)
    entries ∅.

(** The decoder applied to a query string, as [url.searchParams] reads it. *)
Definition decodeQuery (query : string) : gmap string jsval :=
  decodeEntries (JS.parseUrlencoded query).

(** The query of a request target: what follows the first [?], without the
    fragment. *)
Definition urlSearch (target : string) : string :=
  snd (JS.splitFirst "?" (fst (JS.splitFirst "#" target))).

(** [new URL(req.url, 'http://localhost')] as the request handler uses it:
    the query of the URL, or [None] where the constructor throws
    [TypeError].  An input without scheme and without authority is resolved
    against the base and is always accepted: the parser goes through its
    relative, path, query and fragment states, and none of them fails.  An
    input with a scheme or an authority is accepted or not by the host and
    port parsers (IPv4 and IPv6 literals, IDNA, port numbers), which are
    not modelled: [authority] is their verdict.  The query is cut out of
    the input in the same way in both cases. *)
Definition newURL (authority : bool) (target : string) : option string :=
  let input := JS.urlInput target in
  if JS.hasScheme input || JS.startsAuthority input
  then if authority then Some (urlSearch input) else None
  else Some (urlSearch input).

(** *** The decoding rules as a table

    The reference the decoder is compared with: one rule per field name,
    written after the specification (section 4.2), not after the loop. *)
Inductive rule : Type :=
  | JsonElseRaw    (* JSON parsing first, the raw string when it fails *)
  | YesIsTrue      (* true iff the raw value is the literal yes *)
  | PassThrough.   (* the raw string *)

Definition ruleTable : list (string * rule) :=
  [("notes", JsonElseRaw); ("tags", JsonElseRaw);
   ("is_trashed", YesIsTrue); ("pin", YesIsTrue)].

Definition ruleFor (key : string) : rule :=
  match find (fun kr => String.eqb key (fst kr)) ruleTable with
  | Some (_, r) => r
  | None => PassThrough
  end.

Definition applyRule (r : rule) (value : string) : jsval :=
  match r with
  | JsonElseRaw => default (JStr value) (JSON.parse value)
  | YesIsTrue => JBool (String.eqb value "yes")
  | PassThrough => JStr value
  end.

Definition decodeByTable (key value : string) : jsval := applyRule (ruleFor key) value.

(** ** [executeURL] *)

Definition openCommand (url : string) : string :=
  "open " +:+ String JS.dquote url +:+ String JS.dquote "".

(** How the [open] child process ends: with its two output streams, or
    with the error [exec] rejects with. *)
Inductive execResult : Type :=
  | ExecDone (stdout stderr : string)
  | ExecError (message : string).

Definition executeURL (r : execResult) : string + jserror :=
  let failed m := inr (McpError InternalError ("Failed to execute Bear URL: " +:+ m)) in
  match r with
  | ExecDone stdout stderr =>
      if JS.nonEmpty stderr then failed ("Bear command failed: " +:+ stderr) else inl stdout
  | ExecError m => failed m
  end.

(** ** [executeWithCallback]: the callback receiver

    The promise executor creates an HTTP server and starts listening; all
    that follows happens in callbacks.  Each callback is an event, [step]
    is what the callback does to the receiver. *)

Inductive listenerState : Type :=
  | Created      (* createServer(...) *)
  | Open         (* listening *)
  | Closed.      (* after server.close() *)

Inductive promiseState : Type :=
  | Pending
  | Resolved (callbackData : gmap string jsval)
  | Rejected (e : jserror).

Inductive responseBody : Type :=
  | CloseWindowHtml                (* the closeHtml page *)
  | PlainText (text : string).

Record receiver : Type := Receiver {
  listener : listenerState;
  promise : promiseState;
  timer : option N;                         (* a pending setTimeout, in ms *)
  requestParams : params;                   (* the params object of the call *)
  commands : list string;                   (* shell commands handed to exec *)
  responses : list (N * responseBody);      (* status and body sent back *)
  crashed : option jserror                  (* the exception that ended the process *)
}.

Inductive event : Type :=
  | Listening (port : option N)
      (* the listen callback; [None] when server.address() is no AddressInfo *)
  | Request (url : option string) (authority : bool) (thrown : option string)
      (* an incoming request with its req.url; [authority] is the verdict
         of the URL parser on a target that has a scheme or an authority;
         [thrown] is the message of an exception raised inside the try
         block before the response is written, if any *)
  | OpenSettled (r : execResult)
      (* the child process started by executeURL has ended *)
  | TimerFired.

(** [resolve] and [reject] settle a promise once; later calls do nothing. *)
Definition settle (next : promiseState) (p : promiseState) : promiseState :=
  match p with
  | Pending => next
  | _ => p
  end.

(** [server.close()]. *)
Definition close (l : listenerState) : listenerState :=
  match l with
  | Open => Closed
  | _ => l
  end.

Definition callbackUrl (port : N) : string :=
  "http://localhost:" +:+ pretty port +:+ "/callback".

Definition timeoutMs : N := 10000.

Definition start (p : params) : receiver :=
  Receiver Created Pending None p [] [] None.

(** An exception thrown in a callback of the event loop that nothing
    catches: the process ends.  Nothing listens any more and no timer is
    left; the promise stays as it is, a pending one is never settled. *)
Definition crash (e : jserror) (s : receiver) : receiver :=
  Receiver Closed (promise s) None (requestParams s) (commands s) (responses s) (Some e).

(** The listen callback.  [buildBearURL] is called outside any [try]: when
    it throws, neither [executeURL] nor [setTimeout] is reached. *)
Definition onListening (action : string) (port : option N) (s : receiver) : receiver :=
  match port with
  | Some n =>
      let p := setParam "x-success" (PStr (callbackUrl n)) (requestParams s) in
      match buildBearURL action p with
      | inl bearUrl =>
          Receiver Open (promise s) (Some timeoutMs) p
            (commands s ++ [openCommand bearUrl])%list (responses s) (crashed s)
      | inr e =>
          crash e (Receiver Open (promise s) (timer s) p (commands s) (responses s) (crashed s))
      end
  | None =>
      Receiver Open (settle (Rejected (Error "Failed to start callback server")) (promise s))
        (timer s) (requestParams s) (commands s) (responses s) (crashed s)
  end.

(** The request handler: [if (req.url)], then [new URL], which stands
    before the [try], then the [try] block or, when something is thrown
    inside it, the [catch] block. *)
Definition onRequest (url : option string) (authority : bool) (thrown : option string)
    (s : receiver) : receiver :=
  match url with
  | Some target =>
      if JS.nonEmpty target then
        match newURL authority target with
        | Some search =>
            match thrown with
            | None =>
                Receiver (close (listener s))
                  (settle (Resolved (decodeQuery search)) (promise s))
                  (timer s) (requestParams s) (commands s)
                  (responses s ++ [(200%N, CloseWindowHtml)])%list (crashed s)
            | Some message =>
                Receiver (close (listener s))
                  (settle (Rejected (Error ("Failed to parse callback data: " +:+ message)))
                     (promise s))
                  (timer s) (requestParams s) (commands s)
                  (responses s ++ [(500%N, PlainText "Error parsing callback data")])%list
                  (crashed s)
            end
        | None => crash (TypeError "Invalid URL") s
        end
      else s
  | None => s
  end.

Definition onOpenSettled (r : execResult) (s : receiver) : receiver :=
  match executeURL r with
  | inl _ => s
  | inr e =>
      Receiver (listener s) (settle (Rejected e) (promise s))
        (timer s) (requestParams s) (commands s) (responses s) (crashed s)
  end.

Definition onTimer (s : receiver) : receiver :=
  Receiver (close (listener s)) (settle (Rejected (Error "Callback timeout")) (promise s))
    None (requestParams s) (commands s) (responses s) (crashed s).

(** An event reaches the receiver only when its source is live: nothing
    happens in a process that has ended; the listen callback runs once,
    requests come in once the server listens (also after [close], over a
    connection that was kept alive), the child ends after it was started,
    the timer fires after it was set. *)
Definition step (action : string) (s : receiver) (ev : event) : receiver :=
  match crashed s with
  | Some _ => s
  | None =>
      match ev with
      | Listening port =>
          match listener s with Created => onListening action port s | _ => s end
      | Request url authority thrown =>
          match listener s with Created => s | _ => onRequest url authority thrown s end
      | OpenSettled r =>
          match commands s with [] => s | _ :: _ => onOpenSettled r s end
      | TimerFired =>
          match timer s with Some _ => onTimer s | None => s end
      end
  end.

Definition run (action : string) (s : receiver) (evs : list event) : receiver :=
  fold_left (step action) evs s.

Definition isRequest (ev : event) : bool :=
  match ev with Request _ _ _ => true | _ => false end.

Definition isOpenFailure (ev : event) : bool :=
  match ev with
  | OpenSettled r => match executeURL r with inr _ => true | inl _ => false end
  | _ => false
  end.

(** ** The tool handlers *)

(** The [arguments] of a tool call: an object, or [undefined] when the
    request carries none. *)
Definition arguments : Type := option (gmap string pvalue).

(** [args.k] on an object. *)
Definition arg (args : gmap string pvalue) (k : string) : pvalue :=
  default PUndefined (args !! k).

(** The two statements the handlers are made of. *)
Inductive statement : Type :=
  | Copy (k : string)    (* if (args.k) params.k = args.k; *)
  | Flag (k : string).   (* if (args.k) params.k = "yes"; *)

Definition exec (args : gmap string pvalue) (p : params) (st : statement) : params :=
  match st with
  | Copy k => if truthy (arg args k) then setParam k (arg args k) p else p
  | Flag k => if truthy (arg args k) then setParam k (PStr "yes") p else p
  end.

Definition fill (args : gmap string pvalue) (init : params) (body : list statement) : params :=
  fold_left (exec args) body init.

(** How a handler dispatches its action. *)
Inductive mode : Type :=
  | FireAndForget   (* buildBearURL, then executeURL *)
  | WithCallback.   (* executeWithCallback *)

(** What a handler does with its arguments: it throws, or it fills a
    parameter object and hands it, with the action, to one of the two
    dispatchers. *)
Inductive plan : Type :=
  | Throw (e : jserror)
  | Dispatch (m : mode) (action : string) (p : params).

(** Reading a property of [undefined] raises a [TypeError]; [first] is the
    property the handler reads first. *)
Definition withArgs (args : arguments) (first : string)
    (body : gmap string pvalue -> plan) : plan :=
  match args with
  | Some a => body a
  | None =>
      Throw (TypeError ("Cannot read properties of undefined (reading '" +:+ first +:+ "')"))
  end.

Definition openNote (args : arguments) : plan :=
  withArgs args "id" (fun a =>
    Dispatch WithCallback "open-note"
      (fill a []
         [Copy "id"; Copy "title"; Copy "header"; Flag "exclude_trashed";
          Flag "new_window"; Flag "edit"; Copy "selected"; Flag "pin";
          Flag "float"; Flag "show_window"; Flag "open_note"; Copy "search"])).

Definition createNote (args : arguments) : plan :=
  withArgs args "title" (fun a =>
    Dispatch WithCallback "create"
      (fill a []
         [Copy "title"; Copy "text"; Copy "tags"; Flag "pin"; Flag "timestamp";
          Flag "clipboard"; Copy "file"; Copy "filename"; Flag "open_note";
          Flag "new_window"; Flag "float"; Flag "show_window"; Flag "edit";
          Copy "type"; Copy "url"])).

Definition addText (args : arguments) : plan :=
  withArgs args "id" (fun a =>
    Dispatch FireAndForget "add-text"
      (fill a []
         [Copy "id"; Copy "title"; Copy "text"; Copy "mode"; Flag "new_line";
          Copy "header"; Copy "selected"; Flag "clipboard"; Flag "exclude_trashed";
          Flag "open_note"; Flag "new_window"; Flag "show_window"; Flag "edit";
          Flag "timestamp"])).

Definition search (args : arguments) : plan :=
  withArgs args "term" (fun a =>
    Dispatch WithCallback "search"
      (fill a [] [Copy "term"; Copy "tag"; Copy "token"; Flag "show_window"])).

Definition getTags (args : arguments) : plan :=
  withArgs args "token" (fun a =>
    if negb (truthy (arg a "token"))
    then Throw (McpError InvalidParams "Token is required for getTags")
    else Dispatch WithCallback "tags" [("token", arg a "token")]).

Definition openTag (args : arguments) : plan :=
  withArgs args "name" (fun a =>
    Dispatch WithCallback "open-tag"
      (fill a [("name", arg a "name")] [Copy "token"; Flag "show_window"])).

Definition trashNote (args : arguments) : plan :=
  withArgs args "id" (fun a =>
    Dispatch FireAndForget "trash"
      (fill a [] [Copy "id"; Copy "search"; Flag "show_window"])).

Definition archiveNote (args : arguments) : plan :=
  withArgs args "id" (fun a =>
    Dispatch FireAndForget "archive"
      (fill a [] [Copy "id"; Copy "search"; Flag "show_window"])).

Definition getUntagged (args : arguments) : plan :=
  withArgs args "search" (fun a =>
    Dispatch WithCallback "untagged"
      (fill a [] [Copy "search"; Copy "token"; Flag "show_window"])).

Definition getTodo (args : arguments) : plan :=
  withArgs args "search" (fun a =>
    Dispatch WithCallback "todo"
      (fill a [] [Copy "search"; Copy "token"; Flag "show_window"])).

Definition getToday (args : arguments) : plan :=
  withArgs args "search" (fun a =>
    Dispatch WithCallback "today"
      (fill a [] [Copy "search"; Copy "token"; Flag "show_window"])).

Definition getLocked (args : arguments) : plan :=
  withArgs args "search" (fun a =>
    Dispatch FireAndForget "locked"
      (fill a [] [Copy "search"; Flag "show_window"])).

Definition addFile (args : arguments) : plan :=
  withArgs args "id" (fun a =>
    Dispatch FireAndForget "add-file"
      (fill a []
         [Copy "id"; Copy "title"; Copy "selected"; Copy "file"; Copy "header";
          Copy "filename"; Copy "mode"; Flag "open_note"; Flag "new_window";
          Flag "show_window"; Flag "edit"])).

Definition grabUrl (args : arguments) : plan :=
  withArgs args "url" (fun a =>
    Dispatch WithCallback "grab-url"
      (fill a [("url", arg a "url")] [Copy "tags"; Flag "pin"; Flag "wait"])).

Definition renameTag (args : arguments) : plan :=
  withArgs args "name" (fun a =>
    Dispatch FireAndForget "rename-tag"
      (fill a [("name", arg a "name"); ("new_name", arg a "new_name")]
         [Flag "show_window"])).

Definition deleteTag (args : arguments) : plan :=
  withArgs args "name" (fun a =>
    Dispatch FireAndForget "delete-tag"
      (fill a [("name", arg a "name")] [Flag "show_window"])).

(** In [src/index.ts] every handler is [FireAndForget]; the variant with
    [executeWithCallback] dispatches as above.  The parameters are built by
    the same statements in both. *)

(** ** The tool catalogue and [CallToolRequest] handling *)

Inductive tool : Type :=
  | bear_open_note | bear_create_note | bear_add_text | bear_add_file
  | bear_search | bear_get_tags | bear_open_tag | bear_trash_note
  | bear_archive_note | bear_get_untagged | bear_get_todo | bear_get_today
  | bear_get_locked | bear_grab_url | bear_rename_tag | bear_delete_tag.

Definition tools : list tool :=
  [bear_open_note; bear_create_note; bear_add_text; bear_add_file;
   bear_search; bear_get_tags; bear_open_tag; bear_trash_note;
   bear_archive_note; bear_get_untagged; bear_get_todo; bear_get_today;
   bear_get_locked; bear_grab_url; bear_rename_tag; bear_delete_tag].

Definition toolName (t : tool) : string :=
  match t with
  | bear_open_note => "bear_open_note"
  | bear_create_note => "bear_create_note"
  | bear_add_text => "bear_add_text"
  | bear_add_file => "bear_add_file"
  | bear_search => "bear_search"
  | bear_get_tags => "bear_get_tags"
  | bear_open_tag => "bear_open_tag"
  | bear_trash_note => "bear_trash_note"
  | bear_archive_note => "bear_archive_note"
  | bear_get_untagged => "bear_get_untagged"
  | bear_get_todo => "bear_get_todo"
  | bear_get_today => "bear_get_today"
  | bear_get_locked => "bear_get_locked"
  | bear_grab_url => "bear_grab_url"
  | bear_rename_tag => "bear_rename_tag"
  | bear_delete_tag => "bear_delete_tag"
  end.

Inductive propertyType : Type := TString | TBoolean.

(** The [properties] of each tool's [inputSchema], with their [type]. *)
Definition inputSchema (t : tool) : list (string * propertyType) :=
  match t with
  | bear_open_note =>
      [("id", TString); ("title", TString); ("header", TString);
       ("exclude_trashed", TBoolean); ("new_window", TBoolean); ("edit", TBoolean);
       ("selected", TString); ("pin", TBoolean); ("float", TBoolean);
       ("show_window", TBoolean); ("open_note", TBoolean); ("search", TString)]
  | bear_create_note =>
      [("title", TString); ("text", TString); ("tags", TString); ("pin", TBoolean);
       ("timestamp", TBoolean); ("clipboard", TBoolean); ("file", TString);
       ("filename", TString); ("open_note", TBoolean); ("new_window", TBoolean);
       ("float", TBoolean); ("show_window", TBoolean); ("edit", TBoolean);
       ("type", TString); ("url", TString)]
  | bear_add_text =>
      [("id", TString); ("title", TString); ("text", TString); ("mode", TString);
       ("new_line", TBoolean); ("header", TString); ("selected", TString);
       ("clipboard", TBoolean); ("exclude_trashed", TBoolean); ("open_note", TBoolean);
       ("new_window", TBoolean); ("show_window", TBoolean); ("edit", TBoolean);
       ("timestamp", TBoolean)]
  | bear_add_file =>
      [("id", TString); ("title", TString); ("selected", TString); ("file", TString);
       ("header", TString); ("filename", TString); ("mode", TString);
       ("open_note", TBoolean); ("new_window", TBoolean); ("show_window", TBoolean);
       ("edit", TBoolean)]
  | bear_search =>
      [("term", TString); ("tag", TString); ("token", TString); ("show_window", TBoolean)]
  | bear_get_tags => [("token", TString)]
  | bear_open_tag => [("name", TString); ("token", TString); ("show_window", TBoolean)]
  | bear_trash_note | bear_archive_note =>
      [("id", TString); ("search", TString); ("show_window", TBoolean)]
  | bear_get_untagged | bear_get_todo | bear_get_today =>
      [("search", TString); ("token", TString); ("show_window", TBoolean)]
  | bear_get_locked => [("search", TString); ("show_window", TBoolean)]
  | bear_grab_url =>
      [("url", TString); ("tags", TString); ("pin", TBoolean); ("wait", TBoolean)]
  | bear_rename_tag =>
      [("name", TString); ("new_name", TString); ("show_window", TBoolean)]
  | bear_delete_tag => [("name", TString); ("show_window", TBoolean)]
  end.

(** The boolean-flag arguments of a tool. *)
Definition isBoolean (ty : propertyType) : bool :=
  match ty with TBoolean => true | TString => false end.

Definition booleanFlags (t : tool) : list string :=
  fst <$> List.filter (fun kt => isBoolean (snd kt)) (inputSchema t).

(** The [case] labels of the [switch (name)]. *)
Definition handler (t : tool) : arguments -> plan :=
  match t with
  | bear_open_note => openNote
  | bear_create_note => createNote
  | bear_add_text => addText
  | bear_add_file => addFile
  | bear_search => search
  | bear_get_tags => getTags
  | bear_open_tag => openTag
  | bear_trash_note => trashNote
  | bear_archive_note => archiveNote
  | bear_get_untagged => getUntagged
  | bear_get_todo => getTodo
  | bear_get_today => getToday
  | bear_get_locked => getLocked
  | bear_grab_url => grabUrl
  | bear_rename_tag => renameTag
  | bear_delete_tag => deleteTag
  end.

(** The server object: its only field besides the SDK server is [token],
    which the constructor leaves unset.  The constructor takes no argument;
    [env] stands for [process.env], which it could read and does not. *)
Record BearMCPServer : Type := { token : option string }.

Definition newServer (env : gmap string string) : BearMCPServer :=
  {| token := None |}.

(** The [catch] of the request handler: whatever was thrown comes out as an
    internal error. *)
Definition toolFailure (e : jserror) : jserror :=
  McpError InternalError ("Tool execution failed: " +:+ errorMessage e).

(** The [CallToolRequest] handler up to the point where the tool hands its
    parameters to a dispatcher; what is thrown before that comes out of the
    [catch]. *)
Definition callTool (this : BearMCPServer) (name : string) (args : arguments) : plan :=
  let attempt :=
    match find (fun t => String.eqb (toolName t) name) tools with
    | Some t => handler t args
    | None => Throw (McpError MethodNotFound ("Unknown tool: " +:+ name))
    end in
  match attempt with
  | Throw e => Throw (toolFailure e)
  | Dispatch m action p => Dispatch m action p
  end.

(** The parameters that reach [buildBearURL], and the URL handed to [open]:
    a callback-bearing action gets the receiver's address as [x-success]. *)
Definition outgoingParams (m : mode) (port : N) (p : params) : params :=
  match m with
  | FireAndForget => p
  | WithCallback => setParam "x-success" (PStr (callbackUrl port)) p
  end.

Definition outgoingURL (m : mode) (port : N) (action : string) (p : params)
  : string + jserror :=
  buildBearURL action (outgoingParams m port p).

(** The raw [key=value] pairs of a query string: pieces between [&], each
    cut at its first [=]. *)
Definition rawPairs (query : string) : list (string * string) :=
  if JS.nonEmpty query then JS.splitFirst "=" <$> JS.split "&" query else [].

(** What the query string is expected to hold: one encoded pair for each
    entry with a defined value, in order. *)
Definition encodedPairs (p : params) : list (string * string) :=
  (fun kv => (JS.percentEncode (fst kv), JS.percentEncode (toString (snd kv))))
    <$> List.filter (fun kv => isDefined (snd kv)) p.

(** A byte string that is well-formed UTF-8: decoding leaves it as it is. *)
Definition wellFormed (s : string) : Prop := JS.utf8Decode JS.utf8Init s = s.

(** An entry the builder gets through: it is skipped, or its key and its
    value have no unpaired surrogate. *)
Definition encodableEntry (kv : string * pvalue) : bool :=
  negb (isDefined (snd kv))
  || (JS.isWellFormed (fst kv) && JS.isWellFormed (toString (snd kv))).

Definition encodable (p : params) : bool := forallb encodableEntry p.

(** The query string of a parameter object the builder gets through. *)
Definition encodedPart (key : string) (value : pvalue) : string :=
  JS.percentEncode key +:+ "=" +:+ JS.percentEncode (toString value).

Definition encodedQuery (p : params) : string :=
  JS.join "&"
    ((fun kv => encodedPart (fst kv) (snd kv))
       <$> List.filter (fun kv => isDefined (snd kv)) p).

(** Arguments whose strings have no unpaired surrogate. *)
Definition wellFormedArgs (args : gmap string pvalue) : Prop :=
  forall k, wellFormed (toString (arg args k)).

(** How many pairs of a query have the key [k]. *)
Definition occurrences (k : string) (pairs : list (string * string)) : nat :=
  length (List.filter (fun kv => String.eqb (fst kv) k) pairs).

Definition definedWithKey (key : string) (kv : string * pvalue) : bool :=
  String.eqb (fst kv) key && isDefined (snd kv).

(** The three ways out of [executeWithCallback] that go through the
    receiver: the callback was decoded, decoding failed, or the timer fired. *)
Definition exited (p : promiseState) : Prop :=
  match p with
  | Resolved _ => True
  | Rejected (Error m) =>
      m = "Callback timeout" \/ exists thrown, m = "Failed to parse callback data: " +:+ thrown
  | _ => False
  end.

(** The receiver between the start of the listener and the firing of the
    timer, as long as nothing but the timer has settled the call. *)
Definition waiting (s : receiver) : Prop :=
  (timer s = Some timeoutMs /\ listener s = Open /\ promise s = Pending
   /\ crashed s = None)
  \/ (timer s = None /\ listener s = Closed
      /\ promise s = Rejected (Error "Callback timeout")).

(** The same without the promise: the listener is open under a pending
    timer, or closed. *)
Definition timed (s : receiver) : Prop :=
  (is_Some (timer s) /\ listener s = Open /\ crashed s = None) \/ listener s = Closed.

(** A handler body treats [k] as a flag: some statement is [Flag k], none
    is [Copy k]. *)
Definition hasFlag (k : string) (body : list statement) : bool :=
  existsb (fun st => match st with Flag k' => String.eqb k' k | Copy _ => false end) body.

Definition neverCopied (k : string) (body : list statement) : bool :=
  forallb (fun st => match st with Copy k' => negb (String.eqb k' k) | Flag _ => true end) body.

(** What holds of every state the receiver can reach. *)
Definition sound (s : receiver) : Prop :=
  (listener s = Created -> timer s = None /\ promise s = Pending /\ commands s = [])
  /\ (exited (promise s) -> listener s = Closed)
  /\ (listener s = Open ->
      is_Some (timer s) \/ promise s = Rejected (Error "Failed to start callback server"))
  /\ (is_Some (crashed s) -> listener s = Closed /\ timer s = None).

(** ** The rest of a tool call: schemas' required fields and replies *)


(** The [text] of the content a handler returns: a template string, or
    [JSON.stringify(value, null, 2)] of the callback data, alone or under
    [field] next to a [message].  The stringified value is kept as it is
    handed to [JSON.stringify]. *)
Inductive content : Type :=
  | Text (text : string)
  | Json (data : gmap string jsval)
  | JsonLabelled (message field : string) (data : gmap string jsval).

(** [${cond ? ` label${cond}` : ""}]. *)
Definition suffix (label : string) (v : pvalue) : string :=
  if truthy v then label +:+ toString v else "".

(** [${args.id ? ` with ID: ...` : args.search ? ` matching: ...` : ""}]. *)
Definition idOrSearch (a : gmap string pvalue) : string :=
  if truthy (arg a "id") then " with ID: " +:+ toString (arg a "id")
  else suffix " matching: " (arg a "search").

(** What each handler returns once its dispatch has succeeded; [data] is
    the callback data of a callback-bearing action. *)
Definition reply (t : tool) (a : gmap string pvalue) (data : gmap string jsval) : content :=
  match t with
  | bear_open_note => Json data
  | bear_create_note =>
      JsonLabelled ("Created new note in Bear" +:+ suffix " with title: " (arg a "title"))
        "note" data
  | bear_add_text =>
      Text ("Added text to note in Bear" +:+ suffix " using mode: " (arg a "mode"))
  | bear_add_file =>
      Text ("Added file to note in Bear" +:+ suffix " with filename: " (arg a "filename"))
  | bear_search =>
      JsonLabelled
        ("Searched Bear for: "
         +:+ (if truthy (arg a "term") then toString (arg a "term") else "all notes")
         +:+ suffix " in tag: " (arg a "tag"))
        "results" data
  | bear_get_tags => JsonLabelled "Retrieved all tags from Bear" "tags" data
  | bear_open_tag =>
      JsonLabelled ("Opened notes with tag: " +:+ toString (arg a "name")) "notes" data
  | bear_trash_note => Text ("Moved note(s) to trash" +:+ idOrSearch a)
  | bear_archive_note => Text ("Archived note(s)" +:+ idOrSearch a)
  | bear_get_untagged =>
      JsonLabelled ("Retrieved untagged notes" +:+ suffix " matching: " (arg a "search"))
        "notes" data
  | bear_get_todo =>
      JsonLabelled ("Retrieved todo notes" +:+ suffix " matching: " (arg a "search"))
        "notes" data
  | bear_get_today =>
      JsonLabelled ("Retrieved today's notes" +:+ suffix " matching: " (arg a "search"))
        "notes" data
  | bear_get_locked =>
      Text ("Retrieved locked notes" +:+ suffix " matching: " (arg a "search"))
  | bear_grab_url =>
      JsonLabelled ("Created note from URL: " +:+ toString (arg a "url")) "note" data
  | bear_rename_tag =>
      Text ("Renamed tag from " +:+ String JS.dquote (toString (arg a "name"))
            +:+ String JS.dquote " to "
            +:+ String JS.dquote (toString (arg a "new_name")) +:+ String JS.dquote "")
  | bear_delete_tag => Text ("Deleted tag: " +:+ toString (arg a "name"))
  end.

(** How a tool call ends. *)
Inductive outcome : Type :=
  | Returned (c : content)   (* the handler returns: the caller gets a result *)
  | Thrown (e : jserror)     (* the request handler throws: the caller gets an error *)
  | Died (e : jserror)       (* an uncaught exception ended the process: no answer *)
  | Unsettled.               (* the call is still waiting *)

(** [await this.executeWithCallback(...)] after the events so far.  A
    promise that has been settled has given the handler its result or its
    error, also when an exception ends the process later on. *)
Definition awaited (s : receiver) (answer : gmap string jsval -> content) : outcome :=
  match promise s with
  | Resolved data => Returned (answer data)
  | Rejected e => Thrown e
  | Pending =>
      match crashed s with
      | Some e => Died e
      | None => Unsettled
      end
  end.

(** The two dispatchers as the handlers call them: [buildBearURL] and
    [await executeURL], where [r] is how the [open] process ends, or
    [await executeWithCallback], where [evs] is what happens to the
    receiver. *)
Definition dispatch (way : mode) (action : string) (p : params)
    (r : execResult) (evs : list event) (answer : gmap string jsval -> content) : outcome :=
  match way with
  | FireAndForget =>
      match buildBearURL action p with
      | inl url =>
          match executeURL r with
          | inl _ => Returned (answer ∅)
          | inr e => Thrown e
          end
      | inr e => Thrown e
      end
  | WithCallback => awaited (run action (start p) evs) answer
  end.

(** The [catch] of the request handler, for what is thrown at any time
    during the call. *)
Definition rethrow (o : outcome) : outcome :=
  match o with
  | Thrown e => Thrown (toolFailure e)
  | _ => o
  end.

(** A whole tool call: the [switch] inside the [try].  A handler that
    dispatches has read its argument object. *)
Definition callToolResult (this : BearMCPServer) (name : string) (args : arguments)
    (r : execResult) (evs : list event) : outcome :=
  rethrow
    match find (fun t => String.eqb (toolName t) name) tools with
    | Some t =>
        match handler t args with
        | Throw e => Thrown e
        | Dispatch way action p => dispatch way action p r evs (reply t (default ∅ args))
        end
    | None => Thrown (McpError MethodNotFound ("Unknown tool: " +:+ name))
    end.

(** ** Vocabulary of the further properties *)

Fixpoint allChars (f : ascii -> bool) (s : string) : bool :=
  match s with
  | "" => true
  | String c rest => f c && allChars f rest
  end.

(** The characters of a URL this program builds: what [encodeURIComponent]
    leaves or produces, and the delimiters of the scheme, path and query. *)
Definition urlChar (c : ascii) : bool :=
  JS.uriUnreserved c || existsb (JS.ascii_eqb c) ["%"; ":"; "/"; "?"; "&"; "="]%char.

(** The characters that are special inside a double-quoted shell word. *)
Definition shellSpecial : list ascii := [JS.dquote; "$"; "`"; "\"]%char.

(** The value of the last entry with the key [key]. *)
Definition lastValue (key : string) (entries : list (string * string)) : option string :=
  snd <$> find (fun kv => String.eqb (fst kv) key) (rev entries).

(** The keys a handler body may set. *)
Definition statementKey (st : statement) : string :=
  match st with Copy k | Flag k => k end.

(** A handler body treats [k] as a string field: some statement is [Copy k],
    none is [Flag k]. *)
Definition hasCopy (k : string) (body : list statement) : bool :=
  existsb (fun st => match st with Copy k' => String.eqb k' k | Flag _ => false end) body.

Definition neverFlagged (k : string) (body : list statement) : bool :=
  forallb (fun st => match st with Flag k' => negb (String.eqb k' k) | Copy _ => true end) body.

(** Every entry of a parameter object is the argument of the same name, or
    [yes] for a truthy one. *)
Definition fromArgs (args : gmap string pvalue) (p : params) : Prop :=
  Forall (fun kv => snd kv = arg args (fst kv)
                    \/ (snd kv = PStr "yes" /\ truthy (arg args (fst kv)) = true)) p.

Definition isTimer (ev : event) : bool :=
  match ev with TimerFired => true | _ => false end.

(** The receiver while it listens and nothing has settled the call: the
    timer is pending, no response has been sent, and the one command that
    was issued opens the URL built from the parameters. *)
Definition listening (url : string) (s : receiver) : Prop :=
  timer s = Some timeoutMs /\ listener s = Open /\ promise s = Pending
  /\ responses s = [] /\ crashed s = None
  /\ commands s = [openCommand url].

(** The receiver after the dispatch has failed and before the timer fires:
    the call is over, the listener is not. *)
Definition failedOpen (e : jserror) (s : receiver) : Prop :=
  timer s = Some timeoutMs /\ listener s = Open /\ promise s = Rejected e
  /\ crashed s = None.

(** The listen callback has run; the timer is pending or the call is
    settled, unless the process has ended. *)
Definition bounded (s : receiver) : Prop :=
  listener s <> Created
  /\ (is_Some (crashed s) \/ is_Some (timer s) \/ promise s <> Pending).

(** What has been handed to [exec] so far in a call with the parameters
    [p]: nothing, or, once the listener has an address, the one command
    that opens the URL built from [p] with that address as [x-success]. *)
Definition dispatchedOnce (action : string) (p : params) (s : receiver) : Prop :=
  (listener s = Created /\ commands s = [] /\ requestParams s = p)
  \/ (listener s <> Created
      /\ (commands s = []
          \/ exists port url,
               buildBearURL action (setParam "x-success" (PStr (callbackUrl port)) p)
               = inl url
               /\ commands s = [openCommand url])).





(** No C0 control and no space: the URL parser takes such an input as it
    is. *)
Definition plain (s : string) : bool := allChars (fun c => negb (JS.isC0OrSpace c)) s.

(** A request target in origin form: a slash, then neither a slash nor a
    backslash. *)
Definition originForm (target : string) : bool :=
  match target with
  | String a rest =>
      JS.ascii_eqb a "/"
      && match rest with
         | String b _ => negb (JS.isSlash b)
         | "" => true
         end
  | "" => false
  end.

(** A string with one unpaired surrogate, U+D800. *)
Definition loneSurrogate : string :=
  String (ascii_of_nat 237) (String (ascii_of_nat 160) (String (ascii_of_nat 128) "")).

(** * Properties *)

(** ** Strings: splitting, joining, percent-encoding *)

Section Strings.

Import JS.

Lemma occurs_append (c : ascii) (a b : string) :
  occurs c (a +:+ b) = occurs c a || occurs c b.
Proof.
  induction a as [|x a IH]; simpl; [done |].
  rewrite IH. by destruct (ascii_eqb x c).
Qed.

Lemma split_absent (sep : ascii) (s : string) :
  occurs sep s = false -> split sep s = [s].
Proof.
  induction s as [|c s IH]; simpl; [done |].
  destruct (ascii_eqb c sep); simpl; [done |].
  intros H. by rewrite (IH H).
Qed.

Lemma split_append (sep : ascii) (a b : string) :
  occurs sep a = false ->
  split sep (a +:+ String sep b) = a :: split sep b.
Proof.
  induction a as [|c a IH]; simpl.
  - intros _. unfold ascii_eqb. by rewrite Ascii.eqb_refl.
  - destruct (ascii_eqb c sep); simpl; [done |].
    intros H. by rewrite (IH H).
Qed.

Lemma splitFirst_append (sep : ascii) (a b : string) :
  occurs sep a = false ->
  splitFirst sep (a +:+ String sep b) = (a, b).
Proof.
  induction a as [|c a IH]; simpl.
  - intros _. unfold ascii_eqb. by rewrite Ascii.eqb_refl.
  - destruct (ascii_eqb c sep); simpl; [done |].
    intros H. by rewrite (IH H).
Qed.

(** Splitting undoes joining when no piece holds the separator. *)
Lemma split_join (sep : ascii) (parts : list string) :
  parts <> [] ->
  Forall (fun part => occurs sep part = false) parts ->
  split sep (join (String sep "") parts) = parts.
Proof.
  intros Hne Hall. induction Hall as [|part rest Hpart Hrest IH]; [done |].
  destruct rest as [|next rest].
  - simpl. by apply split_absent.
  - change (join (String sep "") (part :: next :: rest))
      with (part +:+ String sep "" +:+ join (String sep "") (next :: rest)).
    change (String sep "" +:+ join (String sep "") (next :: rest))
      with (String sep (join (String sep "") (next :: rest))).
    rewrite split_append by done. f_equal. by apply IH.
Qed.

(** Percent-encoded bytes hold neither [&] nor [=]. *)
Lemma encodeChar_separators (c : ascii) :
  occurs "&" (encodeChar c) = false /\ occurs "=" (encodeChar c) = false.
Proof. destruct c as [[] [] [] [] [] [] [] []]; by vm_compute. Qed.

Lemma percentEncode_separators (s : string) :
  occurs "&" (percentEncode s) = false /\ occurs "=" (percentEncode s) = false.
Proof.
  induction s as [|c s [IH1 IH2]]; simpl; [done |].
  rewrite !occurs_append, IH1, IH2.
  by destruct (encodeChar_separators c) as [-> ->].
Qed.

Lemma percentDecode_encodeChar (c : ascii) (t : string) :
  percentDecode (encodeChar c +:+ t) = String c (percentDecode t).
Proof. destruct c as [[] [] [] [] [] [] [] []]; reflexivity. Qed.

(** Percent-decoding undoes percent-encoding. *)
Lemma percentDecode_percentEncode (s : string) :
  percentDecode (percentEncode s) = s.
Proof.
  induction s as [|c s IH]; [done |].
  change (percentEncode (String c s)) with (encodeChar c +:+ percentEncode s).
  by rewrite percentDecode_encodeChar, IH.
Qed.

Lemma percentEncode_inj (a b : string) :
  percentEncode a = percentEncode b -> a = b.
Proof.
  intros H. rewrite <- (percentDecode_percentEncode a), H.
  apply percentDecode_percentEncode.
Qed.

Lemma isWellFormed_spec (s : string) : isWellFormed s = true <-> wellFormed s.
Proof. apply String.eqb_eq. Qed.

(** [encodeURIComponent] returns for the well-formed strings, and returns
    their percent-encoded bytes. *)
Lemma encodeURIComponent_wellFormed (s : string) :
  wellFormed s -> encodeURIComponent s = Some (percentEncode s).
Proof. intros Hs. unfold encodeURIComponent. by apply isWellFormed_spec in Hs as ->. Qed.

Lemma encodeURIComponent_Some (s encoded : string) :
  encodeURIComponent s = Some encoded -> wellFormed s /\ encoded = percentEncode s.
Proof.
  unfold encodeURIComponent. destruct (isWellFormed s) eqn:Hs; [|done].
  intros [= <-]. split; [by apply isWellFormed_spec | done].
Qed.

Lemma encodeURIComponent_None (s : string) :
  encodeURIComponent s = None <-> ~ wellFormed s.
Proof.
  unfold encodeURIComponent. rewrite <- isWellFormed_spec.
  by destruct (isWellFormed s).
Qed.

(** The encoder on strings as [JSON.parse] delivers them: the UTF-8 bytes
    of a character and of a surrogate pair, an exception for a surrogate on
    its own. *)
Example encodeURIComponent_of_parsed :
  let encoded text :=
    match JSON.parse (String dquote (text +:+ String dquote "")) with
    | Some (JStr s) => encodeURIComponent s
    | _ => None
    end in
  encoded "caf\u00e9" = Some "caf%C3%A9"
  /\ encoded "\ud83d\ude00" = Some "%F0%9F%98%80"
  /\ encoded "\ud83d" = None
  /\ encoded "\ude00\ud83d" = None.
Proof. repeat split; by vm_compute. Qed.

End Strings.

(** ** The URL builder *)

Section Builder.

Import JS.

Lemma queryPart_spec (k : string) (v : pvalue) :
  queryPart k v
  = if isWellFormed k && isWellFormed (toString v) then Some (encodedPart k v) else None.
Proof.
  unfold queryPart, encodeURIComponent, encodedPart.
  by destruct (isWellFormed k), (isWellFormed (toString v)).
Qed.

Lemma queryParts_thrown (p : params) :
  fold_left
    (fun parts kv =>
       match parts with
       | Some pushed =>
           if isDefined (snd kv)
           then match queryPart (fst kv) (snd kv) with
                | Some part => Some (pushed ++ [part])%list
                | None => None
                end
           else Some pushed
       | None => None
       end)
    p None
  = None.
Proof. by induction p. Qed.

Lemma queryParts_acc (p : params) (acc : list string) :
  fold_left
    (fun parts kv =>
       match parts with
       | Some pushed =>
           if isDefined (snd kv)
           then match queryPart (fst kv) (snd kv) with
                | Some part => Some (pushed ++ [part])%list
                | None => None
                end
           else Some pushed
       | None => None
       end)
    p (Some acc)
  = if encodable p
    then Some (acc ++ ((fun kv => encodedPart (fst kv) (snd kv))
                         <$> List.filter (fun kv => isDefined (snd kv)) p))%list
    else None.
Proof.
  revert acc. induction p as [|[k v] p IH]; intros acc; simpl.
  - by rewrite app_nil_r.
  - unfold encodableEntry. simpl. destruct (isDefined v); simpl.
    + rewrite queryPart_spec.
      destruct (isWellFormed k && isWellFormed (toString v)); simpl.
      * rewrite IH. destruct (encodable p); [|done]. by rewrite <- app_assoc.
      * apply queryParts_thrown.
    + apply IH.
Qed.

(** The builder gets through exactly the encodable parameter objects, and
    its query string is then the joined encoded parts. *)
Lemma queryString_spec (p : params) :
  queryString p = if encodable p then Some (encodedQuery p) else None.
Proof.
  unfold queryString, queryParts. rewrite queryParts_acc.
  by destruct (encodable p).
Qed.

Lemma buildBearURL_spec (action : string) (p : params) :
  buildBearURL action p
  = if encodable p
    then inl (if nonEmpty (encodedQuery p)
              then baseURL action +:+ "?" +:+ encodedQuery p else baseURL action)
    else inr (URIError "URI malformed").
Proof. unfold buildBearURL. rewrite queryString_spec. by destruct (encodable p). Qed.

Lemma buildBearURL_inl (action : string) (p : params) (url : string) :
  buildBearURL action p = inl url ->
  encodable p = true /\ queryString p = Some (encodedQuery p)
  /\ url = (if nonEmpty (encodedQuery p)
            then baseURL action +:+ "?" +:+ encodedQuery p else baseURL action).
Proof.
  rewrite buildBearURL_spec, queryString_spec.
  destruct (encodable p); [|done]. by intros [= <-].
Qed.

Lemma buildBearURL_inr (action : string) (p : params) (e : jserror) :
  buildBearURL action p = inr e -> encodable p = false /\ e = URIError "URI malformed".
Proof.
  rewrite buildBearURL_spec. destruct (encodable p); [done |]. by intros [= <-].
Qed.

Lemma encodable_Forall (p : params) :
  encodable p = true
  <-> Forall (fun kv => isDefined (snd kv) = true ->
                        wellFormed (fst kv) /\ wellFormed (toString (snd kv))) p.
Proof.
  unfold encodable. rewrite forallb_forall, Forall_forall.
  split; intros H [k v] Hin; simpl.
  - apply list_elem_of_In, H in Hin. unfold encodableEntry in Hin. simpl in Hin.
    intros Hdef. rewrite Hdef in Hin. simpl in Hin.
    apply andb_true_iff in Hin as [Hk Hv]. by rewrite <- !isWellFormed_spec.
  - pose proof (H (k, v) (proj2 (list_elem_of_In _ _) Hin)) as Hkv. simpl in Hkv.
    unfold encodableEntry. simpl. destruct (isDefined v); [|done]. simpl.
    destruct (Hkv eq_refl) as [Hk Hv]. apply isWellFormed_spec in Hk, Hv.
    by rewrite Hk, Hv.
Qed.

Lemma encodedPart_ampersand (k : string) (v : pvalue) : occurs "&" (encodedPart k v) = false.
Proof.
  unfold encodedPart. rewrite !occurs_append.
  destruct (percentEncode_separators k) as [-> _].
  by destruct (percentEncode_separators (toString v)) as [-> _].
Qed.

Lemma encodedPart_split (k : string) (v : pvalue) :
  splitFirst "=" (encodedPart k v) = (percentEncode k, percentEncode (toString v)).
Proof.
  unfold encodedPart.
  change ("=" +:+ percentEncode (toString v))
    with (String "=" (percentEncode (toString v))).
  apply splitFirst_append, percentEncode_separators.
Qed.

Lemma nonEmpty_append (a b : string) : nonEmpty (a +:+ b) = nonEmpty a || nonEmpty b.
Proof. by destruct a. Qed.

Lemma encodedPart_nonEmpty (k : string) (v : pvalue) : nonEmpty (encodedPart k v) = true.
Proof. unfold encodedPart. rewrite !nonEmpty_append. simpl. by rewrite orb_true_r. Qed.

Lemma join_nonEmpty (sep part : string) (rest : list string) :
  nonEmpty part = true -> nonEmpty (join sep (part :: rest)) = true.
Proof.
  intros H. destruct rest as [|next rest]; simpl; [done |].
  by rewrite nonEmpty_append, H.
Qed.

(** Read back as raw pairs, the query string is the list of the encoded
    defined entries. *)
Lemma rawPairs_encodedQuery (p : params) : rawPairs (encodedQuery p) = encodedPairs p.
Proof.
  unfold rawPairs, encodedQuery, encodedPairs.
  destruct (List.filter (fun kv => isDefined (snd kv)) p) as [|[k v] defined]; [done |].
  set (part := fun kv : string * pvalue => encodedPart (fst kv) (snd kv)).
  set (entries := (k, v) :: defined).
  assert (nonEmpty (join "&" (part <$> entries)) = true) as ->
    by exact (join_nonEmpty "&" _ _ (encodedPart_nonEmpty k v)).
  rewrite split_join.
  - rewrite <- list_fmap_compose. apply list_fmap_ext.
    intros _ [k' v'] _. apply encodedPart_split.
  - done.
  - apply Forall_fmap, Forall_forall. intros [k' v'] _. apply encodedPart_ampersand.
Qed.

Lemma rawPairs_queryString (p : params) (query : string) :
  queryString p = Some query -> rawPairs query = encodedPairs p.
Proof.
  rewrite queryString_spec. destruct (encodable p); [|done].
  intros [= <-]. apply rawPairs_encodedQuery.
Qed.

End Builder.

Section BuilderKeys.

Import JS.

Lemma eqb_percentEncode (a b : string) :
  String.eqb (percentEncode a) (percentEncode b) = String.eqb a b.
Proof.
  destruct (String.eqb_spec a b) as [->|Hne].
  - apply String.eqb_refl.
  - apply String.eqb_neq. intros H. by apply Hne, percentEncode_inj.
Qed.

Lemma encodedPairs_cons (k : string) (v : pvalue) (p : params) :
  encodedPairs ((k, v) :: p)
  = if isDefined v
    then (percentEncode k, percentEncode (toString v)) :: encodedPairs p
    else encodedPairs p.
Proof. unfold encodedPairs. simpl. by destruct (isDefined v). Qed.

Lemma occurrences_cons (key : string) (kv : string * string) (pairs : list (string * string)) :
  occurrences key (kv :: pairs)
  = if String.eqb (fst kv) key then S (occurrences key pairs) else occurrences key pairs.
Proof. unfold occurrences. simpl. by destruct (String.eqb (fst kv) key). Qed.

Lemma occurrences_encodedPairs (key : string) (p : params) :
  occurrences (percentEncode key) (encodedPairs p)
  = length (List.filter (definedWithKey key) p).
Proof.
  induction p as [|[k v] p IH]; [done |].
  rewrite encodedPairs_cons. simpl. unfold definedWithKey at 1. simpl.
  destruct (isDefined v).
  - rewrite occurrences_cons. simpl. rewrite eqb_percentEncode, andb_true_r.
    destruct (String.eqb k key); simpl; by rewrite IH.
  - by rewrite andb_false_r.
Qed.

Lemma absent_key_count (key : string) (p : params) :
  key ∉ p.*1 -> length (List.filter (definedWithKey key) p) = 0.
Proof.
  unfold definedWithKey.
  induction p as [|[k v] p IH]; simpl; [done |].
  intros Hnot. apply not_elem_of_cons in Hnot as [Hne Hnot].
  destruct (String.eqb_spec k key) as [->|_]; [done |]. simpl. by apply IH.
Qed.

Lemma unique_key_count (key : string) (value : pvalue) (p : params) :
  NoDup p.*1 -> (key, value) ∈ p ->
  length (List.filter (definedWithKey key) p) = if isDefined value then 1 else 0.
Proof.
  induction p as [|[k v] p IH]; simpl; intros Hnd Hin.
  - by apply elem_of_nil in Hin.
  - apply NoDup_cons in Hnd as [Hfresh Hnd].
    apply elem_of_cons in Hin as [Heq|Hin].
    + injection Heq as <- <-. unfold definedWithKey at 1. simpl.
      rewrite String.eqb_refl. simpl.
      destruct (isDefined value); simpl; by rewrite absent_key_count.
    + assert (k <> key) as Hne.
      { intros ->. apply Hfresh. apply list_elem_of_fmap. by exists (key, value). }
      unfold definedWithKey at 1. simpl.
      apply String.eqb_neq in Hne as ->. simpl. by apply IH.
Qed.

Lemma elem_of_encodedPairs (key : string) (value : pvalue) (p : params) :
  (key, value) ∈ p -> isDefined value = true ->
  (percentEncode key, percentEncode (toString value)) ∈ encodedPairs p.
Proof.
  intros Hin Hdef. unfold encodedPairs.
  apply list_elem_of_fmap. exists (key, value). split; [done |].
  apply list_elem_of_In, filter_In. split; [by apply list_elem_of_In | done].
Qed.

End BuilderKeys.

(** C2, as the code has it.  For every parameter object (its keys are
    distinct) whose entries with a defined, non-null value have keys and
    values without unpaired surrogates, the builder returns: the URL is
    the base followed, when there is a query, by [?] and the query string;
    read as [key=value] pairs, the query holds the percent-encoded key of
    every such entry exactly once, with the percent-encoded value, and the
    key of an [undefined] or [null] entry not at all. *)
Theorem buildBearURL_each_defined_key_once (action : string) (p : params) :
  NoDup p.*1 ->
  Forall (fun kv => isDefined (snd kv) = true ->
                    wellFormed (fst kv) /\ wellFormed (toString (snd kv))) p ->
  exists query,
    queryString p = Some query
    /\ buildBearURL action p
       = inl (if JS.nonEmpty query then baseURL action +:+ "?" +:+ query
              else baseURL action)
    /\ forall key value, (key, value) ∈ p ->
         let pairs := rawPairs query in
         if isDefined value
         then exists encodedKey encodedValue,
                JS.encodeURIComponent key = Some encodedKey
                /\ JS.encodeURIComponent (toString value) = Some encodedValue
                /\ occurrences encodedKey pairs = 1
                /\ (encodedKey, encodedValue) ∈ pairs
         else occurrences (JS.percentEncode key) pairs = 0.
Proof.
  intros Hnd Hwf. pose proof (proj2 (encodable_Forall p) Hwf) as Henc.
  exists (encodedQuery p).
  split; [by rewrite queryString_spec, Henc |].
  split; [by rewrite buildBearURL_spec, Henc |].
  intros key value Hin. cbv zeta.
  rewrite rawPairs_encodedQuery, occurrences_encodedPairs.
  rewrite (unique_key_count key value p Hnd Hin).
  destruct (isDefined value) eqn:Hdef; [|done].
  destruct (proj1 (Forall_forall _ _) Hwf (key, value) Hin Hdef) as [Hk Hv].
  exists (JS.percentEncode key), (JS.percentEncode (toString value)).
  split; [by apply encodeURIComponent_wellFormed |].
  split; [by apply encodeURIComponent_wellFormed |].
  rewrite occurrences_encodedPairs, (unique_key_count key value p Hnd Hin), Hdef.
  split; [done | by apply elem_of_encodedPairs].
Qed.

Lemma buildBearURL_each_defined_key_once_witness :
  let p := [("title", PStr "a b&c"); ("x", PNull); ("pin", PBool true)] in
  NoDup p.*1
  /\ Forall (fun kv => isDefined (snd kv) = true ->
                       wellFormed (fst kv) /\ wellFormed (toString (snd kv))) p
  /\ buildBearURL "create" p = inl "bear://x-callback-url/create?title=a%20b%26c&pin=true"
  /\ occurrences "title" (rawPairs "title=a%20b%26c&pin=true") = 1
  /\ ("title", "a%20b%26c") ∈ rawPairs "title=a%20b%26c&pin=true"
  /\ occurrences "x" (rawPairs "title=a%20b%26c&pin=true") = 0.
Proof.
  intros p.
  assert (NoDup p.*1) as Hnd by (apply (bool_decide_unpack _); vm_compute; exact I).
  assert (Forall (fun kv => isDefined (snd kv) = true ->
                    wellFormed (fst kv) /\ wellFormed (toString (snd kv))) p) as Hwf
    by (repeat constructor; discriminate).
  destruct (buildBearURL_each_defined_key_once "create" p Hnd Hwf)
    as (query & Hquery & Hurl & Hkeys).
  assert (query = "title=a%20b%26c&pin=true") as ->
    by (vm_compute in Hquery; by injection Hquery as <-).
  split; [exact Hnd |]. split; [exact Hwf |]. split; [exact Hurl |].
  assert (("title", PStr "a b&c") ∈ p) as H1 by (apply (bool_decide_unpack _); vm_compute; exact I).
  assert (("x", PNull) ∈ p) as H2 by (apply (bool_decide_unpack _); vm_compute; exact I).
  destruct (Hkeys _ _ H1) as (ekey & evalue & Hk & Hv & Hone & Hpair).
  vm_compute in Hk, Hv. injection Hk as <-. injection Hv as <-.
  split; [exact Hone |]. split; [exact Hpair |].
  exact (Hkeys _ _ H2).
Defined.

(** C2 as the specification states it, for every mapping, does not hold:
    a value with an unpaired surrogate, as the JSON text ["\ud800"] of a
    tool argument gives one, makes [encodeURIComponent] throw, and the
    builder has no output for a mapping that has a defined, non-null
    value. *)
Lemma buildBearURL_throws_on_unpaired_surrogate :
  let p := [("title", PStr loneSurrogate)] in
  JSON.parse (String JS.dquote ("\ud800" +:+ String JS.dquote "")) = Some (JStr loneSurrogate)
  /\ NoDup p.*1
  /\ isDefined (PStr loneSurrogate) = true
  /\ JS.encodeURIComponent loneSurrogate = None
  /\ queryString p = None
  /\ buildBearURL "create" p = inr (URIError "URI malformed").
Proof.
  intros p. split; [vm_compute; reflexivity |].
  split; [apply (bool_decide_unpack _); vm_compute; exact I |].
  repeat split; vm_compute; reflexivity.
Qed.

(** C10.  When no entry has a defined, non-null value (in particular for
    the empty object), the URL is exactly the base for the action: nothing,
    and so no [?], is appended. *)
Theorem buildBearURL_without_parameters (action : string) (p : params) :
  Forall (fun kv => isDefined (snd kv) = false) p ->
  buildBearURL action p = inl ("bear://x-callback-url/" +:+ action).
Proof.
  intros Hall. rewrite buildBearURL_spec.
  assert (encodable p = true) as ->.
  { apply encodable_Forall. eapply Forall_impl; [exact Hall |].
    intros kv Hundefined Hdefined. congruence. }
  unfold encodedQuery.
  replace (List.filter (fun kv => isDefined (snd kv)) p) with (@nil (string * pvalue)); [done |].
  induction Hall as [|[k v] p Hv _ IH]; simpl; [done |].
  simpl in Hv. by rewrite Hv.
Qed.

Lemma buildBearURL_without_parameters_witness :
  Forall (fun kv : string * pvalue => isDefined (snd kv) = false)
    [("token", PUndefined); ("show_window", PNull)]
  /\ buildBearURL "tags" [("token", PUndefined); ("show_window", PNull)]
     = inl "bear://x-callback-url/tags"
  /\ buildBearURL "today" [] = inl "bear://x-callback-url/today".
Proof.
  assert (Forall (fun kv : string * pvalue => isDefined (snd kv) = false)
            [("token", PUndefined); ("show_window", PNull)]) as Hall
    by (repeat constructor).
  split; [exact Hall |]. split.
  - exact (buildBearURL_without_parameters "tags" _ Hall).
  - apply (buildBearURL_without_parameters "today" []). constructor.
Defined.

(** C4.  The search example: the URL built for [{term: "foo", tag: "bar"}]
    has the pairs in insertion order, and decoding its query string gives
    the same two fields back. *)
Theorem search_round_trip :
  let p := [("term", PStr "foo"); ("tag", PStr "bar")] in
  buildBearURL "search" p = inl "bear://x-callback-url/search?term=foo&tag=bar"
  /\ queryParts p = Some ["term=foo"; "tag=bar"]
  /\ urlSearch "bear://x-callback-url/search?term=foo&tag=bar" = "term=foo&tag=bar"
  /\ JS.parseUrlencoded "term=foo&tag=bar" = [("term", "foo"); ("tag", "bar")]
  /\ decodeQuery "term=foo&tag=bar" = <["term" := JStr "foo"]> (<["tag" := JStr "bar"]> ∅).
Proof. repeat split; by vm_compute. Qed.

(** ** From the builder to the parser and back *)

Section RoundTrip.

Import JS.

Lemma encodeChar_plus (c : ascii) : occurs "+" (encodeChar c) = false.
Proof. destruct c as [[] [] [] [] [] [] [] []]; by vm_compute. Qed.

Lemma percentEncode_plus (s : string) : occurs "+" (percentEncode s) = false.
Proof.
  induction s as [|c s IH]; simpl; [done |].
  by rewrite occurs_append, IH, encodeChar_plus.
Qed.

Lemma replacePlus_absent (s : string) : occurs "+" s = false -> replacePlus s = s.
Proof.
  unfold replacePlus. induction s as [|c s IH]; simpl; [done |].
  destruct (ascii_eqb c "+"); simpl; [done |].
  intros H. by rewrite (IH H).
Qed.

Lemma formDecode_percentEncode (s : string) :
  wellFormed s -> formDecode (percentEncode s) = s.
Proof.
  intros Hs. unfold formDecode.
  by rewrite replacePlus_absent, percentDecode_percentEncode
    by apply percentEncode_plus.
Qed.

Lemma ascii_wellFormed (s : string) :
  Forall (fun c => code c <= 127) (list_ascii_of_string s) -> wellFormed s.
Proof.
  unfold wellFormed. induction s as [|c s IH]; simpl; [done |].
  intros Hall. apply Forall_cons in Hall as [Hc Hall].
  unfold utf8Step, utf8Lead. simpl.
  apply Nat.leb_le in Hc as ->. simpl. by rewrite (IH Hall).
Qed.

(** What [URLSearchParams] reads from a query string built by
    [buildBearURL] is the list of the entries with a defined value, as
    long as their keys and values are well-formed. *)
Lemma parseUrlencoded_encodedQuery (p : params) :
  Forall (fun kv => isDefined (snd kv) = true ->
                    wellFormed (fst kv) /\ wellFormed (toString (snd kv))) p ->
  parseUrlencoded (encodedQuery p)
  = (fun kv => (fst kv, toString (snd kv))) <$> List.filter (fun kv => isDefined (snd kv)) p.
Proof.
  intros Hall. unfold parseUrlencoded, encodedQuery.
  assert (Forall (fun kv => wellFormed (fst kv) /\ wellFormed (toString (snd kv)))
            (List.filter (fun kv => isDefined (snd kv)) p)) as Hdefined.
  { apply Forall_forall. intros kv Hin.
    apply list_elem_of_In, filter_In in Hin as [Hin Hdef].
    apply list_elem_of_In in Hin.
    by apply (proj1 (Forall_forall _ _) Hall kv Hin). }
  clear Hall.
  destruct (List.filter (fun kv => isDefined (snd kv)) p) as [|kv defined]; [done |].
  rewrite split_join.
  - induction Hdefined as [|[k v] rest [Hk Hv] _ IH]; [done |].
    rewrite !fmap_cons. simpl.
    rewrite encodedPart_nonEmpty, encodedPart_split, !formDecode_percentEncode by done.
    simpl. f_equal. apply IH.
  - done.
  - apply Forall_fmap, Forall_forall. intros [k' v'] _. apply encodedPart_ampersand.
Qed.

End RoundTrip.

(** ** The callback decoder *)

Lemma decodeEntry_table (callbackData : gmap string jsval) (key value : string) :
  decodeEntry callbackData key value = decodeByTable key value.
Proof.
  unfold decodeEntry, selectBranch, decodeByTable, ruleFor. simpl.
  destruct (String.eqb key "notes"); simpl; [by destruct (JSON.parse value) |].
  destruct (String.eqb key "tags"); simpl; [by destruct (JSON.parse value) |].
  destruct (String.eqb key "is_trashed"); simpl; [done |].
  by destruct (String.eqb key "pin").
Qed.


Section Decoded.

Lemma decodeEntries_snoc (entries : list (string * string)) (k v : string) :
  decodeEntries (entries ++ [(k, v)])
  = assign k (decodeEntry (decodeEntries entries) k v) (decodeEntries entries).
Proof. unfold decodeEntries. by rewrite fold_left_app. Qed.

Lemma lastValue_snoc (key : string) (entries : list (string * string)) (k v : string) :
  lastValue key (entries ++ [(k, v)])
  = if String.eqb k key then Some v else lastValue key entries.
Proof.
  unfold lastValue. rewrite rev_unit. simpl. by destruct (String.eqb k key).
Qed.

Lemma decodeEntries_lookup (entries : list (string * string)) (key : string) :
  key <> "__proto__" ->
  decodeEntries entries !! key = decodeByTable key <$> lastValue key entries.
Proof.
  intros Hkey. induction entries as [|[k v] entries IH] using rev_ind; [done |].
  rewrite decodeEntries_snoc, lastValue_snoc, decodeEntry_table. unfold assign.
  destruct (String.eqb_spec k key) as [->|Hne].
  - apply String.eqb_neq in Hkey as ->. by rewrite lookup_insert_eq.
  - destruct (String.eqb k "__proto__"); [done |]. by rewrite lookup_insert_ne.
Qed.

Lemma decodeEntries_proto (entries : list (string * string)) :
  decodeEntries entries !! "__proto__" = None.
Proof.
  induction entries as [|[k v] entries IH] using rev_ind; [done |].
  rewrite decodeEntries_snoc. unfold assign.
  destruct (String.eqb_spec k "__proto__") as [->|Hne]; [done |].
  by rewrite lookup_insert_ne.
Qed.

End Decoded.

(** What a request does to a call that is pending, when the URL parser
    accepts its target and nothing is thrown. *)
Lemma step_request_pending
    (action : string) (s : receiver) (target : string) (authority : bool) (query : string) :
  listener s <> Created -> crashed s = None -> promise s = Pending ->
  JS.nonEmpty target = true -> newURL authority target = Some query ->
  step action s (Request (Some target) authority None)
  = Receiver (close (listener s)) (Resolved (decodeQuery query)) (timer s)
      (requestParams s) (commands s) (responses s ++ [(200%N, CloseWindowHtml)])%list None.
Proof.
  intros Hl Hc Hp Htarget Hurl. unfold step. rewrite Hc.
  destruct (listener s) eqn:E; [done | |];
    unfold onRequest; by rewrite Htarget, Hurl, Hp, Hc, E.
Qed.




(** C9.  The arm that splits a comma-separated [tags] value is never
    selected: when the key is [tags] the JSON arm comes first, and for any
    other key the guard of the comma arm is false. *)
Theorem comma_separated_branch_unreachable
    (callbackData : gmap string jsval) (key : string) :
  (key = "tags" -> selectBranch callbackData key = JsonArray)
  /\ selectBranch callbackData key <> CommaSeparated
  /\ forall value, key = "tags" ->
       decodeEntry callbackData key value
       = match JSON.parse value with Some v => v | None => JStr value end.
Proof.
  assert (selectBranch callbackData key <> CommaSeparated) as Hnever.
  { unfold selectBranch.
    destruct (String.eqb key "notes"); [done |].
    destruct (String.eqb key "tags"); [done |]. simpl.
    by destruct (String.eqb key "is_trashed" || String.eqb key "pin"). }
  split; [by intros -> |]. split; [done |].
  intros value ->. done.
Qed.

Lemma comma_separated_branch_unreachable_witness :
  selectBranch ∅ "tags" = JsonArray
  /\ selectBranch (<["tags" := JStr ""]> ∅) "tags" <> CommaSeparated
  /\ decodeEntry ∅ "tags" "work,home" = JStr "work,home".
Proof.
  destruct (comma_separated_branch_unreachable ∅ "tags") as (Hfirst & _ & Hvalue).
  destruct (comma_separated_branch_unreachable (<["tags" := JStr ""]> ∅) "tags") as (_ & Hnever & _).
  split; [exact (Hfirst eq_refl) |]. split; [exact Hnever |].
  exact (Hvalue "work,home" eq_refl).
Defined.

(** ** The callback receiver *)

(** The two callbacks of the specification, through the whole receiver:
    [notes=%5B%5D] is the empty list, [is_trashed=yes] is [true], any other
    literal is [false]. *)
Example callback_decoded :
  promise (run "open-note" (start [("id", PStr "7")])
             [Listening (Some 49152%N);
              Request (Some "/callback?notes=%5B%5D&is_trashed=yes&pin=no&title=a+b")
                false None])
  = Resolved (<["notes" := JArr []]> (<["is_trashed" := JBool true]>
               (<["pin" := JBool false]> (<["title" := JStr "a b"]> ∅)))).
Proof. by vm_compute. Qed.

Section Receiver.

Variable action : string.

Lemma step_crashed (s : receiver) (ev : event) :
  is_Some (crashed s) -> step action s ev = s.
Proof. intros [e He]. unfold step. by rewrite He. Qed.

Lemma run_crashed (evs : list event) (s : receiver) :
  is_Some (crashed s) -> run action s evs = s.
Proof.
  intros Hs. induction evs as [|ev evs IH]; [done |].
  simpl. by rewrite step_crashed.
Qed.

Lemma step_closed (s : receiver) (ev : event) :
  listener s = Closed -> listener (step action s ev) = Closed.
Proof.
  intros Hc. unfold step. destruct (crashed s); [done |].
  destruct ev as [port|url authority thrown|r|]; rewrite ?Hc; try done.
  - unfold onRequest. destruct url as [target|]; [|done].
    destruct (JS.nonEmpty target); [|done].
    destruct (newURL authority target); [|done].
    destruct thrown; simpl; by rewrite Hc.
  - destruct (commands s); [done |]. unfold onOpenSettled.
    by destruct (executeURL r).
  - destruct (timer s); [|done]. simpl. by rewrite Hc.
Qed.

Lemma run_closed (evs : list event) (s : receiver) :
  listener s = Closed -> listener (run action s evs) = Closed.
Proof.
  revert s. induction evs as [|ev evs IH]; intros s Hc; [done |].
  apply IH, step_closed, Hc.
Qed.

Lemma run_cons (ev : event) (evs : list event) (s : receiver) :
  run action s (ev :: evs) = run action (step action s ev) evs.
Proof. done. Qed.

Lemma run_app (evs more : list event) (s : receiver) :
  run action s (evs ++ more) = run action (run action s evs) more.
Proof. apply fold_left_app. Qed.

Lemma start_sound (p : params) : sound (start p).
Proof.
  split; [done |]. split; [by intros [] |]. split; [done |].
  intros [e He]. discriminate He.
Qed.

Lemma settle_exited (next p : promiseState) :
  exited (settle next p) -> exited p \/ (p = Pending /\ exited next).
Proof. destruct p; simpl; auto. Qed.

Lemma crash_sound (e : jserror) (s : receiver) :
  (exited (promise s) -> listener s = Closed) -> sound (crash e s).
Proof.
  intros Hexit. split; [done |]. split; [done |]. split; [done |]. done.
Qed.

Lemma onRequest_sound (url : option string) (authority : bool) (thrown : option string)
    (s : receiver) :
  sound s -> listener s <> Created -> crashed s = None ->
  sound (onRequest url authority thrown s).
Proof.
  intros Hs Hl Hcr. pose proof Hs as (_ & Hexit & _).
  unfold onRequest. destruct url as [target|]; [|exact Hs].
  destruct (JS.nonEmpty target); [|exact Hs].
  destruct (newURL authority target) as [query|]; [|by apply crash_sound].
  assert (forall P : Prop, is_Some (@None jserror) -> P) as Hno
    by (intros P [e He]; discriminate He).
  destruct thrown as [message|]; rewrite Hcr; simpl;
    (split; [by destruct (listener s) |]);
    (split; [by destruct (listener s) |]);
    (split; [by destruct (listener s) |]); apply Hno.
Qed.

Lemma step_sound (s : receiver) (ev : event) : sound s -> sound (step action s ev).
Proof.
  intros Hs. pose proof Hs as (Hcreated & Hexit & Hopen & Hdead).
  unfold step. destruct (crashed s) as [dead|] eqn:Hcr; [exact Hs |].
  destruct ev as [port|url authority thrown|r|].
  - destruct (listener s) eqn:Hl; try exact Hs.
    destruct (Hcreated eq_refl) as (Ht & Hp & Hc).
    destruct port as [n|]; simpl.
    + destruct (buildBearURL action _) as [url|e].
      * rewrite Hp, Hcr. split; [done |]. split; [done |].
        split; [intros _; left; by eexists |]. intros [e He]. discriminate He.
      * apply crash_sound. simpl. by rewrite Hp.
    + rewrite Hp, Hcr. simpl. split; [done |]. split.
      * intros [Hex | [thrown Hex]]; discriminate Hex.
      * split; [by right |]. intros [e He]. discriminate He.
  - assert (listener s = Created \/ listener s <> Created) as [Hl | Hl]
      by (destruct (listener s); [by left | by right | by right]).
    + by rewrite Hl.
    + pose proof (onRequest_sound url authority thrown s Hs Hl Hcr) as Hnext.
      by destruct (listener s).
  - destruct (commands s) eqn:Hc; [exact Hs |]. unfold onOpenSettled.
    destruct (executeURL r) as [out|e] eqn:He; [exact Hs |]. simpl.
    split; [intros Hl; destruct (Hcreated Hl) as (_ & _ & ?); congruence |].
    split.
    + intros Hex.
      apply settle_exited in Hex as [Hex | [_ Hex]]; [by apply Hexit |].
      unfold executeURL in He. destruct r as [out err|m]; simpl in He.
      * destruct (JS.nonEmpty err); [by injection He as <- | done].
      * by injection He as <-.
    + split.
      * intros Hl. destruct (Hopen Hl) as [Ht | Hp]; [by left |].
        right. by rewrite Hp.
      * rewrite Hcr. intros [e' He']. discriminate He'.
  - destruct (timer s) as [ms|] eqn:Ht; [|exact Hs]. unfold onTimer. simpl.
    rewrite Hcr.
    assert (forall P : Prop, is_Some (@None jserror) -> P) as Hno
      by (intros P [e He]; discriminate He).
    destruct (listener s) eqn:Hl; simpl.
    + by destruct (Hcreated eq_refl) as (? & _).
    + split; [done |]. split; [done |]. split; [done |]. apply Hno.
    + split; [done |]. split; [done |]. split; [done |]. apply Hno.
Qed.

Lemma run_sound (evs : list event) (s : receiver) : sound s -> sound (run action s evs).
Proof.
  revert s. induction evs as [|ev evs IH]; intros s Hs; [done |].
  apply IH, step_sound, Hs.
Qed.

End Receiver.

(** A listener that is still open has the timer pending; the one arm
    that leaves it open without a timer is the start failure, taken when
    the address is no [AddressInfo]. *)
Lemma open_listener_has_timer (action : string) (p : params) (evs : list event) :
  let s := run action (start p) evs in
  listener s = Open ->
  is_Some (timer s) \/ promise s = Rejected (Error "Failed to start callback server").
Proof.
  intros s. by destruct (run_sound action evs (start p) (start_sound p)) as (_ & _ & ? & _).
Qed.

(** C6.  In every state the receiver reaches: a request handled once the
    server listens closes the listener, whether decoding succeeds or
    throws; the timer closes it when it fires; the listener stays closed
    whatever happens next; and once the call has been settled through one
    of these three exits the listener is closed. *)
Theorem listener_closed_on_every_exit (action : string) (p : params) (evs : list event) :
  let s := run action (start p) evs in
  (forall url authority thrown more,
     JS.nonEmpty url = true -> listener s <> Created ->
     listener (run action s (Request (Some url) authority thrown :: more)) = Closed)
  /\ (forall more,
        is_Some (timer s) -> listener (run action s (TimerFired :: more)) = Closed)
  /\ (exited (promise s) -> listener s = Closed).
Proof.
  intros s.
  destruct (run_sound action evs (start p) (start_sound p)) as (Hcreated & Hexit & _ & Hdead).
  fold s in Hcreated, Hexit, Hdead. clearbody s. split; [|split].
  - intros url authority thrown more Hurl Hlistening. rewrite run_cons. apply run_closed.
    unfold step. destruct (crashed s) as [e|] eqn:Hcr.
    + apply Hdead. by eexists.
    + destruct (listener s) eqn:Hl; [done | |];
        unfold onRequest; rewrite Hurl;
        (destruct (newURL authority url); [|done]);
        destruct thrown; simpl; by rewrite Hl.
  - intros more [ms Hms]. rewrite run_cons. apply run_closed.
    unfold step. destruct (crashed s) as [e|] eqn:Hcr.
    + apply Hdead. by eexists.
    + rewrite Hms. simpl.
      destruct (listener s) eqn:Hl; try done.
      destruct (Hcreated eq_refl) as (Hnone & _). by rewrite Hnone in Hms.
  - exact Hexit.
Qed.

Lemma listener_closed_on_every_exit_witness :
  let s := run "search" (start [("term", PStr "foo")]) [Listening (Some 49152%N)] in
  listener s = Open
  /\ listener (run "search" s
                 [Request (Some "/callback?notes=%5B%5D") false None; TimerFired]) = Closed
  /\ listener (run "search" s [Request (Some "/callback") false (Some "boom")]) = Closed
  /\ listener (run "search" s [TimerFired; OpenSettled (ExecDone "" "")]) = Closed.
Proof.
  intros s.
  destruct (listener_closed_on_every_exit "search" [("term", PStr "foo")]
              [Listening (Some 49152%N)]) as (Hrequest & Htimer & _).
  fold s in Hrequest, Htimer.
  assert (listener s = Open) as Hopen by (vm_compute; reflexivity).
  assert (listener s <> Created) as Hlistening by (rewrite Hopen; discriminate).
  split; [exact Hopen |].
  split; [exact (Hrequest "/callback?notes=%5B%5D" false None [TimerFired] eq_refl Hlistening) |].
  split; [exact (Hrequest "/callback" false (Some "boom") [] eq_refl Hlistening) |].
  assert (timer s = Some 10000%N) as Harmed by (vm_compute; reflexivity).
  exact (Htimer [OpenSettled (ExecDone "" "")] (ex_intro _ 10000%N Harmed)).
Defined.

Section Timeout.

Variable action : string.

Lemma step_timed (s : receiver) (ev : event) : timed s -> timed (step action s ev).
Proof.
  intros [(Harmed & Hopen & Hcr) | Hclosed]; [|right; by apply step_closed].
  unfold step. rewrite Hcr.
  destruct ev as [port|url authority thrown|r|]; rewrite ?Hopen.
  - by left.
  - unfold onRequest. destruct url as [target|]; [|by left].
    destruct (JS.nonEmpty target); [|by left].
    destruct (newURL authority target); [|by right].
    right. destruct thrown; simpl; by rewrite Hopen.
  - left. destruct (commands s); [done |]. unfold onOpenSettled.
    by destruct (executeURL r).
  - right. destruct Harmed as [ms ->]. simpl. by rewrite Hopen.
Qed.

Lemma run_timed (evs : list event) (s : receiver) : timed s -> timed (run action s evs).
Proof.
  revert s. induction evs as [|ev evs IH]; intros s Hs; [done |].
  apply IH, step_timed, Hs.
Qed.

Lemma timed_fired (s : receiver) : timed s -> listener (step action s TimerFired) = Closed.
Proof.
  intros [([ms Hms] & Hopen & Hcr) | Hclosed]; [|by apply step_closed].
  unfold step. rewrite Hcr, Hms. simpl. by rewrite Hopen.
Qed.

(** After the listen callback the timer is pending under an open listener,
    unless the process has ended. *)
Lemma timed_started (p : params) (port : N) :
  timed (step action (start p) (Listening (Some port))).
Proof.
  unfold step, start, onListening. simpl.
  destruct (buildBearURL action _); [left | by right].
  split; [by eexists | done].
Qed.

Lemma step_waiting (s : receiver) (ev : event) :
  isRequest ev = false -> isOpenFailure ev = false ->
  waiting s -> waiting (step action s ev).
Proof.
  intros Hrequest Hfailure Hs. unfold step.
  destruct (crashed s) eqn:Hcr; [exact Hs |].
  destruct ev as [port|url authority thrown|r|]; simpl in *; try done.
  - pose proof Hs as [(_ & Hl & _) | (_ & Hl & _)]; by rewrite Hl.
  - destruct (commands s); [done |]. unfold onOpenSettled.
    by destruct (executeURL r).
  - destruct Hs as [(Ht & Hl & Hp & _) | (Ht & Hl & Hp)]; rewrite Ht; [|by right].
    right. simpl. by rewrite Hl, Hp.
Qed.

Lemma run_waiting (evs : list event) (s : receiver) :
  Forall (fun ev => isRequest ev = false) evs ->
  Forall (fun ev => isOpenFailure ev = false) evs ->
  waiting s -> waiting (run action s evs).
Proof.
  revert s. induction evs as [|ev evs IH]; intros s Hrequest Hfailure Hs; [done |].
  apply Forall_cons in Hrequest as [Hr Hrequest].
  apply Forall_cons in Hfailure as [Hf Hfailure].
  apply IH; [done | done |]. by apply step_waiting.
Qed.

Lemma waiting_fired (s : receiver) :
  waiting s -> promise (step action s TimerFired) = Rejected (Error "Callback timeout").
Proof.
  unfold step.
  intros [(Ht & Hl & Hp & Hcr) | (Ht & Hl & Hp)].
  - rewrite Hcr, Ht. simpl. by rewrite Hp.
  - destruct (crashed s); [done |]. by rewrite Ht.
Qed.

(** The state after the listen callback, when the URL could be built. *)
Lemma step_listening_built (p : params) (port : N) (url : string) :
  buildBearURL action (setParam "x-success" (PStr (callbackUrl port)) p) = inl url ->
  step action (start p) (Listening (Some port))
  = Receiver Open Pending (Some timeoutMs)
      (setParam "x-success" (PStr (callbackUrl port)) p) [openCommand url] [] None.
Proof. intros Hurl. unfold step, start, onListening. simpl. by rewrite Hurl. Qed.

End Timeout.

(** C5, as the code has it.  When the timer fires the listener is closed,
    and it stays closed.  The timer is set to 10 seconds by the listen
    callback, once it has built the URL.  If then no request has come in
    and the dispatch of the URL has not failed either, the call is
    rejected with the timeout error. *)
Theorem timeout_closes_listener_and_rejects
    (action : string) (p : params) (port : N) (evs more : list event) :
  let s := run action (start p) (Listening (Some port) :: evs ++ [TimerFired]) in
  listener s = Closed
  /\ listener (run action s more) = Closed
  /\ forall url,
       buildBearURL action (setParam "x-success" (PStr (callbackUrl port)) p) = inl url ->
       timer (run action (start p) [Listening (Some port)]) = Some 10000%N
       /\ (Forall (fun ev => isRequest ev = false) evs ->
           Forall (fun ev => isOpenFailure ev = false) evs ->
           promise s = Rejected (Error "Callback timeout")).
Proof.
  intros s. subst s.
  rewrite (run_cons action (Listening (Some port)) (evs ++ [TimerFired])), run_app.
  assert (listener (run action (run action (step action (start p) (Listening (Some port)))
                                  evs) [TimerFired]) = Closed) as Hclosed
    by apply (timed_fired action), run_timed, timed_started.
  split; [done |]. split; [by apply run_closed |].
  intros url Hurl.
  change (run action (start p) [Listening (Some port)])
    with (step action (start p) (Listening (Some port))).
  rewrite (step_listening_built action p port url Hurl).
  split; [done |].
  intros Hquiet Hfailure. apply (waiting_fired action), run_waiting; [done | done |].
  by left.
Qed.

Lemma timeout_closes_listener_and_rejects_witness :
  let evs := [OpenSettled (ExecDone "" "")] in
  let s := run "tags" (start [("token", PStr "t")])
             (Listening (Some 49152%N) :: evs ++ [TimerFired]) in
  buildBearURL "tags" (setParam "x-success" (PStr (callbackUrl 49152)) [("token", PStr "t")])
  = inl "bear://x-callback-url/tags?token=t&x-success=http%3A%2F%2Flocalhost%3A49152%2Fcallback"
  /\ Forall (fun ev => isRequest ev = false) evs
  /\ Forall (fun ev => isOpenFailure ev = false) evs
  /\ listener s = Closed
  /\ promise s = Rejected (Error "Callback timeout").
Proof.
  intros evs s.
  assert (buildBearURL "tags"
            (setParam "x-success" (PStr (callbackUrl 49152)) [("token", PStr "t")])
          = inl "bear://x-callback-url/tags?token=t&x-success=http%3A%2F%2Flocalhost%3A49152%2Fcallback")
    as Hurl by (vm_compute; reflexivity).
  assert (Forall (fun ev => isRequest ev = false) evs) as Hquiet by (repeat constructor).
  assert (Forall (fun ev => isOpenFailure ev = false) evs) as Hfine by (repeat constructor).
  destruct (timeout_closes_listener_and_rejects "tags" [("token", PStr "t")] 49152%N
              evs []) as (Hclosed & _ & Hrejected).
  split; [exact Hurl |]. split; [exact Hquiet |]. split; [exact Hfine |].
  split; [exact Hclosed | exact (proj2 (Hrejected _ Hurl) Hquiet Hfine)].
Defined.

(** C5 as the specification states it does not hold when the dispatch of
    the URL fails before the timer fires: no request arrives, and the call
    is rejected with the dispatch error, not with the timeout error. *)
Lemma timeout_error_preempted_by_dispatch_failure :
  Forall (fun ev => isRequest ev = false) [OpenSettled (ExecError "Command failed")]
  /\ promise (run "tags" (start [("token", PStr "t")])
                ([Listening (Some 49152%N)] ++ [OpenSettled (ExecError "Command failed")]
                 ++ [TimerFired]))
     = Rejected (McpError InternalError "Failed to execute Bear URL: Command failed")
  /\ promise (run "tags" (start [("token", PStr "t")])
                ([Listening (Some 49152%N)] ++ [OpenSettled (ExecError "Command failed")]
                 ++ [TimerFired]))
     <> Rejected (Error "Callback timeout").
Proof.
  split; [repeat constructor |].
  split; [vm_compute; reflexivity | vm_compute; discriminate].
Qed.

(** ** Parameter objects and handler bodies *)

Section Params.

Lemma getParam_cons (k k' : string) (v : pvalue) (p : params) :
  getParam k ((k', v) :: p) = if String.eqb k' k then Some v else getParam k p.
Proof. unfold getParam. simpl. by destruct (String.eqb k' k). Qed.

Lemma getParam_setParam (k k' : string) (v : pvalue) (p : params) :
  getParam k (setParam k' v p) = if String.eqb k' k then Some v else getParam k p.
Proof.
  induction p as [|[k0 v0] p IH]; simpl.
  - rewrite getParam_cons. by destruct (String.eqb k' k).
  - destruct (String.eqb_spec k0 k') as [Heq|Hne]; rewrite !getParam_cons.
    + subst k0. by destruct (String.eqb k' k).
    + rewrite IH. destruct (String.eqb_spec k0 k) as [Heq|_]; [|done].
      subst k0. assert (String.eqb k' k = false) as ->; [|done].
      apply String.eqb_neq. congruence.
Qed.

Lemma getParam_None (k : string) (p : params) : getParam k p = None -> k ∉ p.*1.
Proof.
  induction p as [|[k0 v0] p IH]; simpl; [intros _; apply not_elem_of_nil |].
  rewrite getParam_cons. destruct (String.eqb_spec k0 k) as [->|Hne]; [done |].
  intros H. apply not_elem_of_cons. split; [done | by apply IH].
Qed.

Lemma getParam_Some (k : string) (v : pvalue) (p : params) :
  getParam k p = Some v -> (k, v) ∈ p.
Proof.
  induction p as [|[k0 v0] p IH]; [done |].
  rewrite getParam_cons. destruct (String.eqb_spec k0 k) as [->|Hne].
  - intros [= ->]. apply list_elem_of_here.
  - intros H. apply list_elem_of_further. by apply IH.
Qed.

Lemma getParam_unique (k : string) (v : pvalue) (p : params) :
  NoDup p.*1 -> (k, v) ∈ p -> getParam k p = Some v.
Proof.
  induction p as [|[k0 v0] p IH]; simpl; intros Hnd Hin.
  - by apply elem_of_nil in Hin.
  - apply NoDup_cons in Hnd as [Hfresh Hnd]. rewrite getParam_cons.
    apply elem_of_cons in Hin as [[= -> ->]|Hin]; [by rewrite String.eqb_refl |].
    destruct (String.eqb_spec k0 k) as [->|_]; [|by apply IH].
    exfalso. apply Hfresh. apply list_elem_of_fmap. by exists (k, v).
Qed.

Lemma setParam_keys (k : string) (v : pvalue) (p : params) :
  forall key, key ∈ (setParam k v p).*1 -> key = k \/ key ∈ p.*1.
Proof.
  induction p as [|[k0 v0] p IH]; simpl; intros key Hin.
  - apply list_elem_of_singleton in Hin. by left.
  - destruct (String.eqb_spec k0 k) as [->|_]; simpl in Hin.
    + apply elem_of_cons in Hin as [->|Hin]; [by left |].
      right. by apply list_elem_of_further.
    + apply elem_of_cons in Hin as [->|Hin]; [right; apply list_elem_of_here |].
      destruct (IH key Hin) as [->|Hin']; [by left |].
      right. by apply list_elem_of_further.
Qed.

Lemma setParam_NoDup (k : string) (v : pvalue) (p : params) :
  NoDup p.*1 -> NoDup (setParam k v p).*1.
Proof.
  induction p as [|[k0 v0] p IH]; simpl; intros Hnd.
  - apply NoDup_singleton.
  - apply NoDup_cons in Hnd as [Hfresh Hnd].
    destruct (String.eqb_spec k0 k) as [->|Hne]; simpl.
    + by apply NoDup_cons.
    + apply NoDup_cons. split; [|by apply IH].
      intros Hin. by destruct (setParam_keys k v p k0 Hin) as [->|Hin'].
Qed.

Variable args : gmap string pvalue.

Lemma exec_NoDup (p : params) (st : statement) : NoDup p.*1 -> NoDup (exec args p st).*1.
Proof.
  intros Hnd. destruct st as [k|k]; simpl;
    (destruct (truthy (arg args k)); [by apply setParam_NoDup | done]).
Qed.

Lemma fill_NoDup (body : list statement) (init : params) :
  NoDup init.*1 -> NoDup (fill args init body).*1.
Proof.
  revert init. induction body as [|st body IH]; intros init Hnd; [done |].
  apply IH, exec_NoDup, Hnd.
Qed.

(** A key that the body only ever sets as a flag ends up as [yes] when
    its argument is truthy, and is left as it was otherwise. *)
Lemma getParam_fill_flag (flag : string) (body : list statement) (init : params) :
  neverCopied flag body = true ->
  getParam flag (fill args init body)
  = if hasFlag flag body && truthy (arg args flag)
    then Some (PStr "yes") else getParam flag init.
Proof.
  revert init. induction body as [|st body IH]; intros init Hbody; [done |].
  simpl in Hbody. apply andb_true_iff in Hbody as [Hst Hbody].
  change (fill args init (st :: body)) with (fill args (exec args init st) body).
  rewrite (IH _ Hbody). destruct st as [k|k]; simpl.
  - apply negb_true_iff in Hst.
    destruct (hasFlag flag body && truthy (arg args flag)); [done |].
    destruct (truthy (arg args k)); [|done].
    by rewrite getParam_setParam, Hst.
  - destruct (String.eqb_spec k flag) as [->|Hne]; simpl.
    + destruct (truthy (arg args flag)).
      * rewrite getParam_setParam, String.eqb_refl. by destruct (hasFlag flag body).
      * by rewrite !andb_false_r.
    + destruct (hasFlag flag body && truthy (arg args flag)); [done |].
      destruct (truthy (arg args k)); [|done].
      rewrite getParam_setParam. by apply String.eqb_neq in Hne as ->.
Qed.

End Params.

Lemma Dispatch_inj (m m' : mode) (a a' : string) (p p' : params) :
  Dispatch m a p = Dispatch m' a' p' -> m = m' /\ a = a' /\ p = p'.
Proof. by intros [= -> -> ->]. Qed.

(** ** What the handlers put into the parameter object *)

Section Bodies.

Variable args : gmap string pvalue.

Lemma setParam_Forall (P : string * pvalue -> Prop) (k : string) (v : pvalue) (p : params) :
  P (k, v) -> Forall P p -> Forall P (setParam k v p).
Proof.
  intros Hkv Hp. induction Hp as [|[k0 v0] p H0 Hp IH]; simpl.
  - by constructor.
  - destruct (String.eqb k0 k); constructor; done.
Qed.

Lemma exec_fromArgs (p : params) (st : statement) : fromArgs args p -> fromArgs args (exec args p st).
Proof.
  intros Hp. destruct st as [k|k]; simpl;
    destruct (truthy (arg args k)) eqn:Hk; try done;
    apply setParam_Forall; simpl; auto.
Qed.

Lemma fill_fromArgs (body : list statement) (init : params) :
  fromArgs args init -> fromArgs args (fill args init body).
Proof.
  revert init. induction body as [|st body IH]; intros init Hinit; [done |].
  apply IH, exec_fromArgs, Hinit.
Qed.

Lemma exec_keys (p : params) (st : statement) (k : string) :
  k ∈ (exec args p st).*1 -> k = statementKey st \/ k ∈ p.*1.
Proof.
  destruct st as [k0|k0]; simpl; destruct (truthy (arg args k0)); auto;
    apply setParam_keys.
Qed.

Lemma fill_keys (body : list statement) (init : params) (k : string) :
  k ∈ (fill args init body).*1 -> k ∈ init.*1 \/ k ∈ statementKey <$> body.
Proof.
  revert init. induction body as [|st body IH]; intros init Hk; [by left |].
  change (fill args init (st :: body)) with (fill args (exec args init st) body) in Hk.
  destruct (IH _ Hk) as [Hk' | Hk'].
  - destruct (exec_keys _ _ _ Hk') as [-> | Hinit]; [right; apply list_elem_of_here | by left].
  - right. by apply list_elem_of_further.
Qed.

(** A key that the body only ever copies ends up with the argument itself
    when that is truthy. *)
Lemma getParam_fill_copy (key : string) (body : list statement) (init : params) :
  neverFlagged key body = true ->
  getParam key (fill args init body)
  = if hasCopy key body && truthy (arg args key)
    then Some (arg args key) else getParam key init.
Proof.
  revert init. induction body as [|st body IH]; intros init Hbody; [done |].
  simpl in Hbody. apply andb_true_iff in Hbody as [Hst Hbody].
  change (fill args init (st :: body)) with (fill args (exec args init st) body).
  rewrite (IH _ Hbody). destruct st as [k|k]; simpl.
  - destruct (String.eqb_spec k key) as [->|Hne]; simpl.
    + destruct (truthy (arg args key)).
      * rewrite getParam_setParam, String.eqb_refl. by destruct (hasCopy key body).
      * by rewrite !andb_false_r.
    + destruct (hasCopy key body && truthy (arg args key)); [done |].
      destruct (truthy (arg args k)); [|done].
      rewrite getParam_setParam. by apply String.eqb_neq in Hne as ->.
  - apply negb_true_iff in Hst.
    destruct (hasCopy key body && truthy (arg args key)); [done |].
    destruct (truthy (arg args k)); [|done].
    by rewrite getParam_setParam, Hst.
Qed.

End Bodies.

(** The body and the initial object of each handler that dispatches. *)
Lemma handler_body (t : tool) (args : gmap string pvalue) (m : mode) (action : string)
    (p : params) :
  handler t (Some args) = Dispatch m action p ->
  exists init body,
    p = fill args init body
    /\ NoDup init.*1
    /\ fromArgs args init
    /\ (forall k, k ∈ init.*1 \/ k ∈ statementKey <$> body -> k ∈ (inputSchema t).*1)
    /\ (forall k, (k, TString) ∈ inputSchema t ->
          neverFlagged k body = true
          /\ (hasCopy k body = true \/ getParam k init = Some (arg args k)))
    /\ (forall k, (k, TBoolean) ∈ inputSchema t ->
          neverCopied k body = true /\ hasFlag k body = true /\ getParam k init = None).
Proof.
  intros Hplan.
  destruct t; cbv [handler] in Hplan;
    [ unfold openNote in Hplan | unfold createNote in Hplan | unfold addText in Hplan
    | unfold addFile in Hplan | unfold search in Hplan | unfold getTags in Hplan
    | unfold openTag in Hplan | unfold trashNote in Hplan | unfold archiveNote in Hplan
    | unfold getUntagged in Hplan | unfold getTodo in Hplan | unfold getToday in Hplan
    | unfold getLocked in Hplan | unfold grabUrl in Hplan | unfold renameTag in Hplan
    | unfold deleteTag in Hplan ];
    cbv [withArgs] in Hplan;
    try (destruct (negb (truthy (arg args "token"))); [discriminate Hplan |]);
    apply Dispatch_inj in Hplan as (_ & _ & <-);
    lazymatch goal with
    | |- exists init body, fill _ ?i ?b = _ /\ _ => exists i, b
    | |- exists init body, ?i = _ /\ _ => exists i, (@nil statement)
    end;
    (split; [reflexivity |]);
    (split; [by apply (bool_decide_unpack _) |]);
    (split; [repeat constructor; by left |]);
    (split; [intros k [Hk | Hk];
             [ simpl in Hk | vm_compute in Hk ];
             repeat (apply elem_of_cons in Hk as [-> | Hk];
                     [apply (bool_decide_unpack _); by vm_compute |]);
             by apply elem_of_nil in Hk |]);
    split; intros k Hk; vm_compute in Hk;
    repeat (apply elem_of_cons in Hk as [Hk | Hk];
            [first [discriminate Hk
                   | injection Hk as ->; vm_compute; first [by auto | by right] ] |]);
    by apply elem_of_nil in Hk.
Qed.

Lemma x_success_undeclared (t : tool) (k : string) :
  k ∈ (inputSchema t).*1 -> String.eqb "x-success" k = false.
Proof.
  intros Hk. destruct t; vm_compute in Hk;
    repeat (apply elem_of_cons in Hk as [-> | Hk]; [reflexivity |]);
    by apply elem_of_nil in Hk.
Qed.

Lemma schema_key (t : tool) (k : string) (ty : propertyType) :
  (k, ty) ∈ inputSchema t -> k ∈ (inputSchema t).*1.
Proof. intros Hk. apply list_elem_of_fmap. by exists (k, ty). Qed.

Lemma booleanFlags_schema (t : tool) (k : string) :
  k ∈ booleanFlags t <-> (k, TBoolean) ∈ inputSchema t.
Proof.
  unfold booleanFlags. rewrite list_elem_of_fmap. split.
  - intros ([k' ty] & -> & Hin). apply list_elem_of_In, filter_In in Hin as [Hin Hty].
    simpl in *. destruct ty; [done |]. by apply list_elem_of_In.
  - intros Hin. exists (k, TBoolean). split; [done |].
    apply list_elem_of_In, filter_In. split; [by apply list_elem_of_In | done].
Qed.

Lemma elem_of_setParam (k k' : string) (v v' : pvalue) (p : params) :
  (k, v) ∈ setParam k' v' p -> (k, v) = (k', v') \/ (k, v) ∈ p.
Proof.
  induction p as [|[k0 v0] p IH]; simpl; intros Hin.
  - apply list_elem_of_singleton in Hin. by left.
  - destruct (String.eqb k0 k').
    + apply elem_of_cons in Hin as [-> | Hin]; [by left |].
      right. by apply list_elem_of_further.
    + apply elem_of_cons in Hin as [-> | Hin]; [right; apply list_elem_of_here |].
      destruct (IH Hin) as [? | ?]; [by left |]. right. by apply list_elem_of_further.
Qed.

Lemma undefined_key_count (key : string) (p : params) :
  (forall v, (key, v) ∈ p -> isDefined v = false) ->
  length (List.filter (definedWithKey key) p) = 0.
Proof.
  induction p as [|[k v] p IH]; simpl; intros Hall; [done |].
  unfold definedWithKey at 1. simpl.
  destruct (String.eqb_spec k key) as [->|_]; simpl.
  - rewrite (Hall v) by apply list_elem_of_here. simpl.
    apply IH. intros v' Hv'. apply Hall. by apply list_elem_of_further.
  - apply IH. intros v' Hv'. apply Hall. by apply list_elem_of_further.
Qed.

(** Every handler but [getTags] dispatches whatever the argument object
    holds; [getTags] does so for a truthy token. *)
Lemma handler_dispatches (t : tool) (args : gmap string pvalue) :
  t <> bear_get_tags \/ truthy (arg args "token") = true ->
  exists m action p, handler t (Some args) = Dispatch m action p.
Proof.
  destruct t; cbv [handler];
    [ unfold openNote | unfold createNote | unfold addText | unfold addFile
    | unfold search | unfold getTags | unfold openTag | unfold trashNote
    | unfold archiveNote | unfold getUntagged | unfold getTodo | unfold getToday
    | unfold getLocked | unfold grabUrl | unfold renameTag | unfold deleteTag ];
    cbv [withArgs]; try (intros _; by eauto).
  intros [Hother | Htoken]; [done |]. rewrite Htoken. simpl. by eauto.
Qed.



(** ** Strings the handlers add are well-formed *)

Section WellFormed.

Import JS.

Lemma list_ascii_of_string_append (a b : string) :
  list_ascii_of_string (a +:+ b) = (list_ascii_of_string a ++ list_ascii_of_string b)%list.
Proof. induction a as [|c a IH]; simpl; [done |]. by rewrite IH. Qed.

Lemma pretty_N_go_ascii (x : N) (s : string) :
  Forall (fun c => code c <= 127) (list_ascii_of_string s) ->
  Forall (fun c => code c <= 127) (list_ascii_of_string (pretty_N_go x s)).
Proof.
  revert s. induction (N.lt_wf_0 x) as [x _ IH]; intros s Hs.
  assert (x = 0 \/ 0 < x)%N as [-> | Hpos] by lia.
  - by rewrite pretty_N_go_0.
  - rewrite pretty_N_go_step by done. apply IH; [by apply N.div_lt |].
    simpl. constructor; [|done].
    unfold pretty_N_char. repeat case_match; vm_compute; lia.
Qed.

Lemma pretty_N_ascii (x : N) :
  Forall (fun c => code c <= 127) (list_ascii_of_string (pretty x)).
Proof.
  unfold pretty, pretty_N. destruct (decide (x = 0%N)).
  - repeat constructor.
  - by apply pretty_N_go_ascii.
Qed.

Lemma wellFormed_callbackUrl (port : N) : wellFormed (callbackUrl port).
Proof.
  apply ascii_wellFormed. unfold callbackUrl.
  rewrite !list_ascii_of_string_append. repeat (apply Forall_app; split).
  - apply Forall_forall. intros c Hc. simpl in Hc.
    repeat (apply elem_of_cons in Hc as [-> | Hc]; [vm_compute; lia |]).
    by apply elem_of_nil in Hc.
  - apply pretty_N_ascii.
  - apply Forall_forall. intros c Hc. simpl in Hc.
    repeat (apply elem_of_cons in Hc as [-> | Hc]; [vm_compute; lia |]).
    by apply elem_of_nil in Hc.
Qed.

Lemma wellFormed_schema_key (t : tool) (k : string) :
  k ∈ (inputSchema t).*1 -> wellFormed k.
Proof.
  intros Hk. destruct t; vm_compute in Hk;
    repeat (apply elem_of_cons in Hk as [-> | Hk]; [by vm_compute |]);
    by apply elem_of_nil in Hk.
Qed.

End WellFormed.

(** A handler's parameter object, with or without the callback address,
    goes through the builder when the arguments have no unpaired
    surrogate. *)
Lemma handler_encodable (t : tool) (args : gmap string pvalue) (m : mode) (action : string)
    (p : params) (way : mode) (port : N) :
  handler t (Some args) = Dispatch m action p ->
  wellFormedArgs args ->
  encodable (outgoingParams way port p) = true.
Proof.
  intros Hplan Hargs.
  destruct (handler_body _ _ _ _ _ Hplan) as (init & body & -> & _ & Hinit & Hkeys & _).
  pose proof (fill_fromArgs args body init Hinit) as Hfrom.
  assert (forall k v, (k, v) ∈ fill args init body ->
            wellFormed k /\ wellFormed (toString v)) as Hp.
  { intros k v Hin. split.
    - apply (wellFormed_schema_key t), Hkeys, (fill_keys args).
      apply list_elem_of_fmap. by exists (k, v).
    - destruct (proj1 (Forall_forall _ _) Hfrom (k, v) Hin) as [Hv | [Hv _]];
        simpl in Hv; rewrite Hv; [apply Hargs | by vm_compute]. }
  apply encodable_Forall, Forall_forall. intros [k v] Hin _. simpl.
  destruct way; simpl in Hin; [by apply Hp |].
  apply elem_of_setParam in Hin as [[= -> ->] | Hin]; [|by apply Hp].
  split; [by vm_compute | apply wellFormed_callbackUrl].
Qed.

Lemma handler_builds (t : tool) (args : gmap string pvalue) (m : mode) (action : string)
    (p : params) (way : mode) (port : N) :
  handler t (Some args) = Dispatch m action p ->
  wellFormedArgs args ->
  exists url, outgoingURL way port action p = inl url.
Proof.
  intros Hplan Hargs. unfold outgoingURL. rewrite buildBearURL_spec.
  rewrite (handler_encodable _ _ _ _ _ way port Hplan Hargs). by eexists.
Qed.

(** ** Boolean flags, from the handler to the URL *)

Section Flags.

Import JS.

Lemma encodedPairs_key (key x : string) (q : params) :
  (percentEncode key, x) ∈ encodedPairs q ->
  exists v, (key, v) ∈ q /\ isDefined v = true /\ x = percentEncode (toString v).
Proof.
  unfold encodedPairs. intros Hin.
  apply list_elem_of_fmap in Hin as ([k v] & Heq & Hin). simpl in Heq.
  injection Heq as Hk ->. apply percentEncode_inj in Hk as ->.
  apply list_elem_of_In, filter_In in Hin as [Hin Hdef].
  exists v. split; [by apply list_elem_of_In | done].
Qed.

Lemma key_in_query (q : params) (key : string) :
  NoDup q.*1 ->
  let ekey := percentEncode key in
  let pairs := encodedPairs q in
  (getParam key q = Some (PStr "yes") ->
   (ekey, "yes") ∈ pairs /\ occurrences ekey pairs = 1 /\ (ekey, "no") ∉ pairs)
  /\ (getParam key q = None -> occurrences ekey pairs = 0 /\ (ekey, "no") ∉ pairs).
Proof.
  intros Hnd ekey pairs. subst ekey pairs.
  rewrite !occurrences_encodedPairs. split.
  - intros Hyes. pose proof (getParam_Some _ _ _ Hyes) as Hin. split; [|split].
    + change "yes" with (percentEncode (toString (PStr "yes"))).
      by apply elem_of_encodedPairs.
    + by rewrite (unique_key_count key (PStr "yes") q Hnd Hin).
    + intros Hno. apply encodedPairs_key in Hno as (v & Hv & _ & Hx).
      rewrite (getParam_unique _ _ _ Hnd Hv) in Hyes. injection Hyes as ->.
      discriminate Hx.
  - intros Hnone. split.
    + by apply absent_key_count, getParam_None.
    + intros Hno. apply encodedPairs_key in Hno as (v & Hv & _ & _).
      by rewrite (getParam_unique _ _ _ Hnd Hv) in Hnone.
Qed.

Lemma flag_in_query (q : params) (flag : string) :
  NoDup q.*1 -> percentEncode flag = flag ->
  let pairs := encodedPairs q in
  (getParam flag q = Some (PStr "yes") ->
   (flag, "yes") ∈ pairs /\ occurrences flag pairs = 1 /\ (flag, "no") ∉ pairs)
  /\ (getParam flag q = None -> occurrences flag pairs = 0 /\ (flag, "no") ∉ pairs).
Proof.
  intros Hnd Henc. pose proof (key_in_query q flag Hnd) as H.
  by rewrite Henc in H.
Qed.

Lemma outgoingParams_NoDup (m : mode) (port : N) (p : params) :
  NoDup p.*1 -> NoDup (outgoingParams m port p).*1.
Proof. destruct m; simpl; [done | apply setParam_NoDup]. Qed.

Lemma getParam_outgoingParams (m : mode) (port : N) (p : params) (k : string) :
  String.eqb "x-success" k = false ->
  getParam k (outgoingParams m port p) = getParam k p.
Proof. intros Hk. destruct m; simpl; [done |]. by rewrite getParam_setParam, Hk. Qed.

Lemma percentEncode_schema_key (t : tool) (k : string) :
  k ∈ (inputSchema t).*1 -> percentEncode k = k.
Proof.
  intros Hk. destruct t; vm_compute in Hk;
    repeat (apply elem_of_cons in Hk as [-> | Hk]; [by vm_compute |]);
    by apply elem_of_nil in Hk.
Qed.

End Flags.

(** C3.  Every handler whose tool has boolean arguments builds its
    parameter object whatever the arguments are, and for every argument the
    schema declares boolean: when the argument is [true], the object holds
    the key with the string [yes] and the URL has the pair [key=yes] once;
    when it is [false] or absent, the key is neither in the object nor in
    the URL; in no case is the key set to or encoded as [no].  The URL is
    the one built from the object, with or without the callback address
    added ([way]); it is built whenever no argument has an unpaired
    surrogate. *)
Theorem boolean_flags_yes_or_omitted
    (t : tool) (args : gmap string pvalue) (flag : string) (way : mode) (port : N) :
  flag ∈ booleanFlags t ->
  exists m action p,
    handler t (Some args) = Dispatch m action p
    /\ (arg args flag = PBool true -> getParam flag p = Some (PStr "yes"))
    /\ (arg args flag = PBool false \/ args !! flag = None -> getParam flag p = None)
    /\ getParam flag p <> Some (PStr "no")
    /\ (wellFormedArgs args -> exists url, outgoingURL way port action p = inl url)
    /\ forall query,
         queryString (outgoingParams way port p) = Some query ->
         let pairs := rawPairs query in
         (arg args flag = PBool true -> (flag, "yes") ∈ pairs /\ occurrences flag pairs = 1)
         /\ (arg args flag = PBool false \/ args !! flag = None ->
             occurrences flag pairs = 0)
         /\ (flag, "no") ∉ pairs.
Proof.
  intros Hflag.
  assert (t <> bear_get_tags) as Hother
    by (intros ->; vm_compute in Hflag; by apply elem_of_nil in Hflag).
  destruct (handler_dispatches t args (or_introl Hother)) as (m & action & p & Hplan).
  exists m, action, p. split; [done |].
  apply booleanFlags_schema in Hflag.
  destruct (handler_body _ _ _ _ _ Hplan) as (init & body & Hp & Hnd & _ & _ & _ & Hbool).
  destruct (Hbool flag Hflag) as (Hcopy & Hhas & Hinit).
  assert (getParam flag p = if truthy (arg args flag) then Some (PStr "yes") else None)
    as Hget by (by rewrite Hp, getParam_fill_flag, Hhas, Hinit).
  assert (arg args flag = PBool false \/ args !! flag = None ->
          truthy (arg args flag) = false) as Hfalse.
  { intros [-> | Hnone]; [done |]. unfold arg. by rewrite Hnone. }
  split; [intros Htrue; by rewrite Hget, Htrue |].
  split; [intros Habsent; by rewrite Hget, (Hfalse Habsent) |].
  split; [rewrite Hget; by destruct (truthy (arg args flag)) |].
  split; [by apply (handler_builds t args m) |].
  intros query Hquery pairs. subst pairs.
  rewrite (rawPairs_queryString _ _ Hquery).
  destruct (flag_in_query (outgoingParams way port p) flag) as [Hyes Hnone].
  { rewrite Hp. by apply outgoingParams_NoDup, fill_NoDup. }
  { by apply (percentEncode_schema_key t), (schema_key t flag TBoolean). }
  rewrite getParam_outgoingParams, Hget in Hyes, Hnone
    by (by apply (x_success_undeclared t), (schema_key t flag TBoolean)).
  split; [|split].
  - intros Htrue. rewrite Htrue in Hyes. by destruct (Hyes eq_refl) as (? & ? & _).
  - intros Habsent. rewrite (Hfalse Habsent) in Hnone. by destruct (Hnone eq_refl).
  - destruct (truthy (arg args flag)).
    + by destruct (Hyes eq_refl) as (_ & _ & ?).
    + by destruct (Hnone eq_refl) as (_ & ?).
Qed.

Lemma boolean_flags_yes_or_omitted_witness :
  let args : gmap string pvalue :=
    <["title" := PStr "Plan"]> (<["pin" := PBool true]> (<["edit" := PBool false]> ∅)) in
  let p := [("title", PStr "Plan"); ("pin", PStr "yes")] in
  let pairs :=
    rawPairs "title=Plan&pin=yes&x-success=http%3A%2F%2Flocalhost%3A49152%2Fcallback" in
  handler bear_open_note (Some args) = Dispatch WithCallback "open-note" p
  /\ outgoingURL WithCallback 49152 "open-note" p
     = inl "bear://x-callback-url/open-note?title=Plan&pin=yes&x-success=http%3A%2F%2Flocalhost%3A49152%2Fcallback"
  /\ ("pin" ∈ booleanFlags bear_open_note /\ arg args "pin" = PBool true
      /\ getParam "pin" p = Some (PStr "yes") /\ ("pin", "yes") ∈ pairs)
  /\ ("edit" ∈ booleanFlags bear_open_note /\ arg args "edit" = PBool false
      /\ getParam "edit" p = None /\ occurrences "edit" pairs = 0)
  /\ ("float" ∈ booleanFlags bear_open_note /\ args !! "float" = None
      /\ getParam "float" p = None /\ occurrences "float" pairs = 0).
Proof.
  intros args p pairs.
  assert (handler bear_open_note (Some args) = Dispatch WithCallback "open-note" p) as Hplan
    by (vm_compute; reflexivity).
  assert (queryString (outgoingParams WithCallback 49152 p)
          = Some "title=Plan&pin=yes&x-success=http%3A%2F%2Flocalhost%3A49152%2Fcallback")
    as Hquery by (vm_compute; reflexivity).
  assert ("pin" ∈ booleanFlags bear_open_note) as Hpin
    by (apply (bool_decide_unpack _); vm_compute; exact I).
  assert ("edit" ∈ booleanFlags bear_open_note) as Hedit
    by (apply (bool_decide_unpack _); vm_compute; exact I).
  assert ("float" ∈ booleanFlags bear_open_note) as Hfloat
    by (apply (bool_decide_unpack _); vm_compute; exact I).
  assert (args !! "float" = None) as Hnone by (vm_compute; reflexivity).
  destruct (boolean_flags_yes_or_omitted bear_open_note args "pin" WithCallback 49152 Hpin)
    as (m1 & a1 & p1 & Hplan1 & Htrue & _ & _ & _ & Hurl1).
  destruct (boolean_flags_yes_or_omitted bear_open_note args "edit" WithCallback 49152 Hedit)
    as (m2 & a2 & p2 & Hplan2 & _ & Hfalse & _ & _ & Hurl2).
  destruct (boolean_flags_yes_or_omitted bear_open_note args "float" WithCallback 49152 Hfloat)
    as (m3 & a3 & p3 & Hplan3 & _ & Habsent & _ & _ & Hurl3).
  rewrite Hplan in Hplan1, Hplan2, Hplan3.
  apply Dispatch_inj in Hplan1 as (_ & _ & <-).
  apply Dispatch_inj in Hplan2 as (_ & _ & <-).
  apply Dispatch_inj in Hplan3 as (_ & _ & <-).
  split; [exact Hplan |]. split; [vm_compute; reflexivity |].
  split; [exact (conj Hpin (conj eq_refl (conj (Htrue eq_refl)
                   (proj1 (proj1 (Hurl1 _ Hquery) eq_refl))))) |].
  split; [exact (conj Hedit (conj eq_refl (conj (Hfalse (or_introl eq_refl))
                   (proj1 (proj2 (Hurl2 _ Hquery)) (or_introl eq_refl))))) |].
  exact (conj Hfloat (conj Hnone (conj (Habsent (or_intror Hnone))
           (proj1 (proj2 (Hurl3 _ Hquery)) (or_intror Hnone))))).
Defined.

(** ** Tool calls *)

Lemma arg_delete (args : gmap string pvalue) (k : string) :
  arg (delete k args) k = PUndefined.
Proof. unfold arg. by rewrite lookup_delete_eq. Qed.

(** C7, evaluated on the code.  [getTags] without a token throws the
    invalid-parameters error before anything is dispatched, so no URL is
    opened and no listener started; but the [catch] of the request handler
    replaces it, and what the call to [bear_get_tags] fails with is an
    internal error whose message quotes the invalid-parameters one. *)
Theorem get_tags_without_token_internal_error
    (env : gmap string string) (args : gmap string pvalue) :
  getTags (Some (delete "token" args))
  = Throw (McpError InvalidParams "Token is required for getTags")
  /\ callTool (newServer env) "bear_get_tags" (Some (delete "token" args))
     = Throw (McpError InternalError
                "Tool execution failed: MCP error -32602: Token is required for getTags")
  /\ callTool (newServer env) "bear_get_tags" None
     = Throw (McpError InternalError
                "Tool execution failed: Cannot read properties of undefined (reading 'token')").
Proof.
  assert (getTags (Some (delete "token" args))
          = Throw (McpError InvalidParams "Token is required for getTags")) as Hthrow.
  { unfold getTags, withArgs. by rewrite arg_delete. }
  split; [done |]. split; [|done].
  change (callTool (newServer env) "bear_get_tags" (Some (delete "token" args)))
    with (match getTags (Some (delete "token" args)) with
          | Throw e => Throw (toolFailure e)
          | Dispatch m action p => Dispatch m action p
          end).
  by rewrite Hthrow.
Qed.

(** C8, evaluated on the code.  The server never holds a token: the
    constructor leaves the field unset whatever the environment is, and a
    tool call is the same with and without [BEAR_TOKEN] in the environment,
    so a call without a token argument sends none.  A non-empty token given
    as argument is handed on as it is. *)
Theorem environment_token_not_read
    (env : gmap string string) (name : string) (args : arguments) :
  token (newServer (<["BEAR_TOKEN" := "secret"]> env)) = None
  /\ callTool (newServer (<["BEAR_TOKEN" := "secret"]> env)) name args
     = callTool (newServer ∅) name args
  /\ callTool (newServer (<["BEAR_TOKEN" := "secret"]> env)) "bear_search"
       (Some (<["term" := PStr "x"]> ∅))
     = Dispatch WithCallback "search" [("term", PStr "x")]
  /\ forall c rest (a : gmap string pvalue),
       callTool (newServer env) "bear_get_tags" (Some (<["token" := PStr (String c rest)]> a))
       = Dispatch WithCallback "tags" [("token", PStr (String c rest))].
Proof.
  split; [done |]. split; [done |]. split; [by vm_compute |].
  intros c rest a. unfold callTool. simpl. unfold getTags, withArgs, arg.
  by rewrite lookup_insert_eq.
Qed.

(** * Further properties *)

(** ** The query string as a whole *)

(** X1.  The builder returns a query string exactly for the parameter
    objects whose entries with a defined, non-null value have well-formed
    keys and values.  Read back as [key=value] pairs, that query string
    holds exactly those entries, percent-encoded, in the order of
    [Object.entries]; this needs no assumption on the keys being
    distinct. *)
Theorem query_lists_defined_entries_in_order (p : params) :
  (is_Some (queryString p)
   <-> Forall (fun kv => isDefined (snd kv) = true ->
                         wellFormed (fst kv) /\ wellFormed (toString (snd kv))) p)
  /\ forall query,
       queryString p = Some query ->
       rawPairs query
       = (fun kv => (JS.percentEncode (fst kv), JS.percentEncode (toString (snd kv))))
           <$> List.filter (fun kv => isDefined (snd kv)) p.
Proof.
  split.
  - rewrite <- encodable_Forall, queryString_spec.
    by destruct (encodable p).
  - intros query Hquery. apply (rawPairs_queryString p query Hquery).
Qed.

Lemma query_lists_defined_entries_in_order_witness :
  let p := [("b", PStr "2"); ("skip", PUndefined); ("a", PBool false); ("b", PStr "x y")] in
  queryString p = Some "b=2&a=false&b=x%20y"
  /\ rawPairs "b=2&a=false&b=x%20y" = [("b", "2"); ("a", "false"); ("b", "x%20y")]
  /\ ~ is_Some (queryString [("b", PStr loneSurrogate)]).
Proof.
  intros p.
  assert (queryString p = Some "b=2&a=false&b=x%20y") as Hquery by (vm_compute; reflexivity).
  split; [exact Hquery |].
  split; [exact (proj2 (query_lists_defined_entries_in_order p) _ Hquery) |].
  intros Hsome.
  apply (proj1 (query_lists_defined_entries_in_order [("b", PStr loneSurrogate)])) in Hsome.
  apply Forall_cons in Hsome as [Hb _]. destruct (Hb eq_refl) as [_ Hvalue].
  vm_compute in Hvalue. discriminate Hvalue.
Defined.

(** X2.  For a parameter object whose defined entries are well-formed
    text, the builder returns a query string, and what [URLSearchParams]
    reads from it is the list of the defined entries themselves, key and
    [String(value)]. *)
Theorem query_round_trip (p : params) :
  Forall (fun kv => isDefined (snd kv) = true ->
                    wellFormed (fst kv) /\ wellFormed (toString (snd kv))) p ->
  exists query,
    queryString p = Some query
    /\ JS.parseUrlencoded query
       = (fun kv => (fst kv, toString (snd kv)))
           <$> List.filter (fun kv => isDefined (snd kv)) p.
Proof.
  intros Hall. exists (encodedQuery p). split.
  - rewrite queryString_spec. by apply encodable_Forall in Hall as ->.
  - by apply parseUrlencoded_encodedQuery.
Qed.

Lemma query_round_trip_witness :
  let p := [("title", PStr "a+b & c=d%"); ("skip", PNull); ("pin", PBool true)] in
  Forall (fun kv => isDefined (snd kv) = true ->
                    wellFormed (fst kv) /\ wellFormed (toString (snd kv))) p
  /\ queryString p = Some "title=a%2Bb%20%26%20c%3Dd%25&pin=true"
  /\ JS.parseUrlencoded "title=a%2Bb%20%26%20c%3Dd%25&pin=true"
     = [("title", "a+b & c=d%"); ("pin", "true")].
Proof.
  intros p.
  assert (Forall (fun kv => isDefined (snd kv) = true ->
                    wellFormed (fst kv) /\ wellFormed (toString (snd kv))) p) as Hall
    by (repeat constructor; discriminate).
  destruct (query_round_trip p Hall) as (query & Hquery & Hparsed).
  assert (query = "title=a%2Bb%20%26%20c%3Dd%25&pin=true") as Heq
    by (vm_compute in Hquery; by injection Hquery as <-).
  rewrite Heq in Hquery, Hparsed.
  split; [exact Hall |]. split; [exact Hquery | exact Hparsed].
Defined.

(** ** The URL inside the shell command *)

Section ShellWord.

Import JS.

Lemma allChars_append (f : ascii -> bool) (a b : string) :
  allChars f (a +:+ b) = allChars f a && allChars f b.
Proof.
  induction a as [|c a IH]; simpl; [done |].
  by rewrite IH, andb_assoc.
Qed.

Lemma encodeChar_urlChar (c : ascii) : allChars urlChar (encodeChar c) = true.
Proof. destruct c as [[] [] [] [] [] [] [] []]; by vm_compute. Qed.

Lemma percentEncode_urlChar (s : string) :
  allChars urlChar (percentEncode s) = true.
Proof.
  induction s as [|c s IH]; simpl; [done |].
  by rewrite allChars_append, encodeChar_urlChar, IH.
Qed.

Lemma join_urlChar (parts : list string) :
  Forall (fun part => allChars urlChar part = true) parts ->
  allChars urlChar (join "&" parts) = true.
Proof.
  induction 1 as [|part rest Hpart _ IH]; [done |].
  destruct rest as [|next rest]; [done |].
  change (join "&" (part :: next :: rest)) with (part +:+ "&" +:+ join "&" (next :: rest)).
  by rewrite !allChars_append, Hpart, IH.
Qed.

Lemma encodedQuery_urlChar (p : params) : allChars urlChar (encodedQuery p) = true.
Proof.
  unfold encodedQuery. apply join_urlChar.
  apply Forall_fmap, Forall_forall. intros [k v] _. simpl. unfold encodedPart.
  by rewrite !allChars_append, !percentEncode_urlChar.
Qed.

Lemma buildBearURL_urlChar (action : string) (p : params) (url : string) :
  allChars urlChar action = true -> buildBearURL action p = inl url ->
  allChars urlChar url = true.
Proof.
  intros Haction Hurl. apply buildBearURL_inl in Hurl as (_ & _ & ->).
  unfold baseURL.
  destruct (nonEmpty (encodedQuery p));
    rewrite !allChars_append, ?Haction, ?encodedQuery_urlChar; done.
Qed.

Lemma allChars_occurs (f : ascii -> bool) (c : ascii) (s : string) :
  allChars f s = true -> f c = false -> occurs c s = false.
Proof.
  intros Hall Hc. induction s as [|c' s IH]; simpl; [done |].
  simpl in Hall. apply andb_true_iff in Hall as [Hc' Hall].
  rewrite (IH Hall), orb_false_r. unfold ascii_eqb.
  apply Ascii.eqb_neq. intros ->. congruence.
Qed.

End ShellWord.

Lemma handler_action (t : tool) (args : gmap string pvalue) (m : mode) (action : string)
    (p : params) :
  handler t (Some args) = Dispatch m action p ->
  action ∈ ["open-note"; "create"; "add-text"; "add-file"; "search"; "tags"; "open-tag";
            "trash"; "archive"; "untagged"; "todo"; "today"; "locked"; "grab-url";
            "rename-tag"; "delete-tag"].
Proof.
  intros Hplan.
  destruct t; cbv [handler] in Hplan;
    [ unfold openNote in Hplan | unfold createNote in Hplan | unfold addText in Hplan
    | unfold addFile in Hplan | unfold search in Hplan | unfold getTags in Hplan
    | unfold openTag in Hplan | unfold trashNote in Hplan | unfold archiveNote in Hplan
    | unfold getUntagged in Hplan | unfold getTodo in Hplan | unfold getToday in Hplan
    | unfold getLocked in Hplan | unfold grabUrl in Hplan | unfold renameTag in Hplan
    | unfold deleteTag in Hplan ];
    cbv [withArgs] in Hplan;
    try (destruct (negb (truthy (arg args "token"))); [discriminate Hplan |]);
    apply Dispatch_inj in Hplan as (_ & <- & _);
    apply (bool_decide_unpack _); by vm_compute.
Qed.

(** X3.  Whatever the arguments of a tool call are, a URL that is put
    between double quotes in the [open] command consists of unreserved
    characters, percent escapes and the delimiters [: / ? & =] only; none
    of the characters that are special inside a double-quoted shell word
    occurs in it. *)
Theorem dispatched_url_is_one_shell_word
    (t : tool) (args : gmap string pvalue) (m : mode) (action : string) (p : params)
    (way : mode) (port : N) (url : string) :
  handler t (Some args) = Dispatch m action p ->
  outgoingURL way port action p = inl url ->
  allChars urlChar url = true
  /\ forall c, c ∈ shellSpecial -> JS.occurs c url = false.
Proof.
  intros Hplan Hurl.
  assert (allChars urlChar url = true) as Hall.
  { apply (buildBearURL_urlChar action (outgoingParams way port p)); [|done].
    apply handler_action in Hplan.
    repeat (apply elem_of_cons in Hplan as [-> | Hplan]; [reflexivity |]).
    by apply elem_of_nil in Hplan. }
  split; [done |].
  intros c Hc. apply (allChars_occurs urlChar); [done |].
  repeat (apply elem_of_cons in Hc as [-> | Hc]; [reflexivity |]).
  by apply elem_of_nil in Hc.
Qed.

Lemma dispatched_url_is_one_shell_word_witness :
  let args : gmap string pvalue := <["title" := PStr "$(reboot) `id` \ end"]> ∅ in
  let p := [("title", PStr "$(reboot) `id` \ end")] in
  let url := "bear://x-callback-url/create?title=%24(reboot)%20%60id%60%20%5C%20end" in
  handler bear_create_note (Some args) = Dispatch WithCallback "create" p
  /\ outgoingURL FireAndForget 0 "create" p = inl url
  /\ JS.occurs "$" url = false.
Proof.
  intros args p url.
  assert (handler bear_create_note (Some args) = Dispatch WithCallback "create" p) as Hplan
    by (vm_compute; reflexivity).
  assert (outgoingURL FireAndForget 0 "create" p = inl url) as Hurl
    by (vm_compute; reflexivity).
  destruct (dispatched_url_is_one_shell_word bear_create_note args WithCallback "create" p
              FireAndForget 0 url Hplan Hurl) as [_ Hnone].
  split; [exact Hplan |]. split; [exact Hurl |].
  apply Hnone. apply (bool_decide_unpack _). vm_compute. exact I.
Defined.

(** X4.  A boolean flag is decided by the truthiness of its argument and by
    nothing else: the key is [yes] for [true] and for any non-empty string
    (also for the strings [no] and [false]), and it is left out for
    [false], [null], the empty string and a missing argument. *)
Theorem flag_follows_truthiness
    (t : tool) (args : gmap string pvalue) (m : mode) (action : string) (p : params)
    (flag : string) :
  handler t (Some args) = Dispatch m action p ->
  flag ∈ booleanFlags t ->
  getParam flag p = (if truthy (arg args flag) then Some (PStr "yes") else None)
  /\ (forall c rest, arg args flag = PStr (String c rest) -> getParam flag p = Some (PStr "yes"))
  /\ (arg args flag = PNull \/ arg args flag = PStr "" -> getParam flag p = None).
Proof.
  intros Hplan Hflag. apply booleanFlags_schema in Hflag.
  destruct (handler_body _ _ _ _ _ Hplan) as (init & body & -> & _ & _ & _ & _ & Hbool).
  destruct (Hbool flag Hflag) as (Hcopy & Hhas & Hinit).
  assert (getParam flag (fill args init body)
          = if truthy (arg args flag) then Some (PStr "yes") else None) as Hp
    by (by rewrite getParam_fill_flag, Hhas, Hinit).
  split; [done |]. rewrite Hp. split.
  - by intros c rest ->.
  - by intros [-> | ->].
Qed.

Lemma flag_follows_truthiness_witness :
  let args : gmap string pvalue :=
    <["name" := PStr "work"]> (<["show_window" := PStr "no"]> ∅) in
  handler bear_delete_tag (Some args)
  = Dispatch FireAndForget "delete-tag" [("name", PStr "work"); ("show_window", PStr "yes")]
  /\ "show_window" ∈ booleanFlags bear_delete_tag
  /\ getParam "show_window" [("name", PStr "work"); ("show_window", PStr "yes")]
     = Some (PStr "yes").
Proof.
  intros args.
  assert (handler bear_delete_tag (Some args)
          = Dispatch FireAndForget "delete-tag"
              [("name", PStr "work"); ("show_window", PStr "yes")]) as Hplan
    by (vm_compute; reflexivity).
  assert ("show_window" ∈ booleanFlags bear_delete_tag) as Hflag
    by (apply (bool_decide_unpack _); vm_compute; exact I).
  destruct (flag_follows_truthiness bear_delete_tag args _ _ _ "show_window" Hplan Hflag)
    as (_ & Hstring & _).
  split; [exact Hplan |]. split; [exact Hflag |].
  exact (Hstring "n"%char "o" eq_refl).
Defined.

(** X5.  A string argument that is given (truthy) is handed on as it is:
    the parameter object holds it under its own name, and a URL that is
    built holds its key exactly once, with the percent-encoded value.  No
    URL is built when the argument has an unpaired surrogate: the builder
    throws instead. *)
Theorem string_argument_passed_verbatim
    (t : tool) (args : gmap string pvalue) (m : mode) (action : string) (p : params)
    (key : string) (way : mode) (port : N) :
  handler t (Some args) = Dispatch m action p ->
  (key, TString) ∈ inputSchema t ->
  truthy (arg args key) = true ->
  getParam key p = Some (arg args key)
  /\ (forall query,
        queryString (outgoingParams way port p) = Some query ->
        let pairs := rawPairs query in
        exists encodedKey encodedValue,
          JS.encodeURIComponent key = Some encodedKey
          /\ JS.encodeURIComponent (toString (arg args key)) = Some encodedValue
          /\ (encodedKey, encodedValue) ∈ pairs
          /\ occurrences encodedKey pairs = 1)
  /\ (~ wellFormed (toString (arg args key)) ->
      outgoingURL way port action p = inr (URIError "URI malformed")).
Proof.
  intros Hplan Hkey Htruthy.
  destruct (handler_body _ _ _ _ _ Hplan) as (init & body & -> & Hnd & _ & _ & Hstr & _).
  destruct (Hstr key Hkey) as (Hflag & Hsource).
  assert (getParam key (fill args init body) = Some (arg args key)) as Hp.
  { rewrite getParam_fill_copy, Htruthy by done.
    destruct (hasCopy key body); [done |]. by destruct Hsource. }
  split; [done |].
  assert (NoDup (outgoingParams way port (fill args init body)).*1) as Hnd'
    by (by apply outgoingParams_NoDup, fill_NoDup).
  assert ((key, arg args key) ∈ outgoingParams way port (fill args init body)) as Hin.
  { apply getParam_Some. rewrite getParam_outgoingParams; [done |].
    by apply (x_success_undeclared t), (schema_key t key TString). }
  assert (isDefined (arg args key) = true) as Hdef by (by destruct (arg args key)).
  split.
  - intros query Hquery pairs. subst pairs.
    rewrite (rawPairs_queryString _ _ Hquery).
    rewrite queryString_spec in Hquery.
    destruct (encodable _) eqn:Henc; [|done].
    destruct (proj1 (Forall_forall _ _) (proj1 (encodable_Forall _) Henc) _ Hin Hdef)
      as [Hwk Hwv].
    exists (JS.percentEncode key), (JS.percentEncode (toString (arg args key))).
    split; [by apply encodeURIComponent_wellFormed |].
    split; [by apply encodeURIComponent_wellFormed |].
    rewrite occurrences_encodedPairs, (unique_key_count key (arg args key) _ Hnd' Hin), Hdef.
    split; [by apply elem_of_encodedPairs | done].
  - intros Hill. unfold outgoingURL. rewrite buildBearURL_spec.
    destruct (encodable _) eqn:Henc; [|done]. exfalso. apply Hill.
    by destruct (proj1 (Forall_forall _ _) (proj1 (encodable_Forall _) Henc) _ Hin Hdef).
Qed.

Lemma string_argument_passed_verbatim_witness :
  let args : gmap string pvalue := <["token" := PStr "A1/b+c"]> (<["term" := PStr ""]> ∅) in
  let p := [("token", PStr "A1/b+c")] in
  let query := "token=A1%2Fb%2Bc&x-success=http%3A%2F%2Flocalhost%3A49152%2Fcallback" in
  handler bear_search (Some args) = Dispatch WithCallback "search" p
  /\ ("token", TString) ∈ inputSchema bear_search
  /\ truthy (arg args "token") = true
  /\ queryString (outgoingParams WithCallback 49152 p) = Some query
  /\ ("token", "A1%2Fb%2Bc") ∈ rawPairs query.
Proof.
  intros args p query.
  assert (handler bear_search (Some args) = Dispatch WithCallback "search" p) as Hplan
    by (vm_compute; reflexivity).
  assert (("token", TString) ∈ inputSchema bear_search) as Hkey
    by (vm_compute; repeat constructor).
  assert (truthy (arg args "token") = true) as Htruthy by reflexivity.
  assert (queryString (outgoingParams WithCallback 49152 p) = Some query) as Hquery
    by (vm_compute; reflexivity).
  destruct (string_argument_passed_verbatim bear_search args _ _ _ "token" WithCallback 49152
              Hplan Hkey Htruthy) as (_ & Hurl & _).
  destruct (Hurl query Hquery) as (ekey & evalue & Hk & Hv & Hin & _).
  vm_compute in Hk, Hv. injection Hk as <-. injection Hv as <-.
  split; [exact Hplan |]. split; [exact Hkey |]. split; [exact Htruthy |].
  split; [exact Hquery | exact Hin].
Defined.

(** X6.  No parameter is invented, renamed or taken from another argument:
    every entry of the parameter object is the caller's argument of the
    same name, or the string [yes] for a truthy argument of that name.  So
    an argument that is missing never shows in a URL that is built, the
    callback address [x-success] apart, which the receiver adds. *)
Theorem parameters_come_from_arguments
    (t : tool) (args : gmap string pvalue) (m : mode) (action : string) (p : params) :
  handler t (Some args) = Dispatch m action p ->
  (forall key value, (key, value) ∈ p ->
     value = arg args key \/ (value = PStr "yes" /\ truthy (arg args key) = true))
  /\ (forall key way port query,
        args !! key = None -> key <> "x-success" ->
        queryString (outgoingParams way port p) = Some query ->
        occurrences (JS.percentEncode key) (rawPairs query) = 0).
Proof.
  intros Hplan.
  destruct (handler_body _ _ _ _ _ Hplan) as (init & body & -> & _ & Hinit & _).
  pose proof (fill_fromArgs args body init Hinit) as Hfrom.
  assert (forall key value, (key, value) ∈ fill args init body ->
            value = arg args key \/ (value = PStr "yes" /\ truthy (arg args key) = true))
    as Hentries.
  { intros key value Hin. by apply (proj1 (Forall_forall _ _) Hfrom (key, value)). }
  split; [done |].
  intros key way port query Hnone Hkey Hquery.
  rewrite (rawPairs_queryString _ _ Hquery), occurrences_encodedPairs.
  apply undefined_key_count. intros v Hv.
  assert ((key, v) ∈ fill args init body) as Hin.
  { destruct way; simpl in Hv; [done |].
    apply elem_of_setParam in Hv as [[= -> _] | Hv]; [done | done]. }
  assert (arg args key = PUndefined) as Harg by (unfold arg; by rewrite Hnone).
  destruct (Hentries key v Hin) as [-> | [_ Htruthy]]; [by rewrite Harg |].
  by rewrite Harg in Htruthy.
Qed.

Lemma parameters_come_from_arguments_witness :
  let args : gmap string pvalue := <["new_name" := PStr "home"]> ∅ in
  let p := [("name", PUndefined); ("new_name", PStr "home")] in
  handler bear_rename_tag (Some args) = Dispatch FireAndForget "rename-tag" p
  /\ args !! "name" = None
  /\ queryString (outgoingParams FireAndForget 0 p) = Some "new_name=home"
  /\ occurrences "name" (rawPairs "new_name=home") = 0
  /\ buildBearURL "rename-tag" p = inl "bear://x-callback-url/rename-tag?new_name=home".
Proof.
  intros args p.
  assert (handler bear_rename_tag (Some args) = Dispatch FireAndForget "rename-tag" p) as Hplan
    by (vm_compute; reflexivity).
  assert (args !! "name" = None) as Hnone by (vm_compute; reflexivity).
  assert (queryString (outgoingParams FireAndForget 0 p) = Some "new_name=home") as Hquery
    by (vm_compute; reflexivity).
  destruct (parameters_come_from_arguments bear_rename_tag args _ _ _ Hplan) as [_ Habsent].
  split; [exact Hplan |]. split; [exact Hnone |]. split; [exact Hquery |].
  split; [exact (Habsent "name" FireAndForget 0%N _ Hnone ltac:(discriminate) Hquery) |].
  vm_compute. reflexivity.
Defined.

(** X7.  Only declared properties are sent: every key of the parameter
    object is a property of the tool's input schema, so an argument the
    schema does not know never reaches the URL; the one further key of an
    outgoing URL is [x-success]. *)
Theorem only_declared_properties_sent
    (t : tool) (args : gmap string pvalue) (m : mode) (action : string) (p : params)
    (key : string) (way : mode) (port : N) :
  handler t (Some args) = Dispatch m action p ->
  (key ∈ p.*1 -> key ∈ (inputSchema t).*1)
  /\ (key ∈ (outgoingParams way port p).*1 ->
      key = "x-success" \/ key ∈ (inputSchema t).*1).
Proof.
  intros Hplan.
  destruct (handler_body _ _ _ _ _ Hplan) as (init & body & -> & _ & _ & Hkeys & _).
  assert (key ∈ (fill args init body).*1 -> key ∈ (inputSchema t).*1) as Hp.
  { intros Hk. by apply Hkeys, (fill_keys args). }
  split; [done |].
  destruct way; simpl; [intros Hk; right; by apply Hp |].
  intros Hk. destruct (setParam_keys _ _ _ _ Hk) as [-> | Hk']; [by left | right; by apply Hp].
Qed.

Lemma only_declared_properties_sent_witness :
  let args : gmap string pvalue :=
    <["search" := PStr "x"]> (<["token" := PStr "secret"]> (<["id" := PStr "7"]> ∅)) in
  handler bear_get_locked (Some args) = Dispatch FireAndForget "locked" [("search", PStr "x")]
  /\ "search" ∈ (inputSchema bear_get_locked).*1.
Proof.
  intros args.
  assert (handler bear_get_locked (Some args)
          = Dispatch FireAndForget "locked" [("search", PStr "x")]) as Hplan
    by (vm_compute; reflexivity).
  destruct (only_declared_properties_sent bear_get_locked args _ _ _ "search"
              FireAndForget 0%N Hplan) as [Hdeclared _].
  split; [exact Hplan |].
  apply Hdeclared. apply (bool_decide_unpack _). vm_compute. exact I.
Defined.



(** ** More on the callback receiver *)

Section Settled.

Variable action : string.

Lemma settle_kept (next p : promiseState) : p <> Pending -> settle next p = p.
Proof. by destruct p. Qed.

Lemma settle_not_pending (next p : promiseState) :
  next <> Pending -> settle next p <> Pending.
Proof. by destruct p. Qed.

Lemma onRequest_promise (url : option string) (authority : bool) (thrown : option string)
    (s : receiver) :
  promise s <> Pending -> promise (onRequest url authority thrown s) = promise s.
Proof.
  intros Hs. unfold onRequest. destruct url as [target|]; [|done].
  destruct (JS.nonEmpty target); [|done].
  destruct (newURL authority target); [|done].
  destruct thrown; simpl; by apply settle_kept.
Qed.

Lemma step_settled (s : receiver) (ev : event) :
  promise s <> Pending -> promise (step action s ev) = promise s.
Proof.
  intros Hs. unfold step. destruct (crashed s); [done |].
  destruct ev as [port|url authority thrown|r|].
  - destruct (listener s); try done. destruct port; simpl.
    + by destruct (buildBearURL action _).
    + by apply settle_kept.
  - destruct (listener s); try done; by apply onRequest_promise.
  - destruct (commands s); [done |]. unfold onOpenSettled.
    destruct (executeURL r); simpl; [done |]. by apply settle_kept.
  - destruct (timer s); [|done]. simpl. by apply settle_kept.
Qed.

Lemma run_settled (evs : list event) (s : receiver) :
  promise s <> Pending -> promise (run action s evs) = promise s.
Proof.
  revert s. induction evs as [|ev evs IH]; intros s Hs; [done |].
  rewrite run_cons, IH; [by apply step_settled |].
  by rewrite step_settled.
Qed.

Lemma onRequest_bounded (url : option string) (authority : bool) (thrown : option string)
    (s : receiver) :
  bounded s -> bounded (onRequest url authority thrown s).
Proof.
  intros Hs. pose proof Hs as [Hl Hb]. unfold onRequest.
  destruct url as [target|]; [|exact Hs].
  destruct (JS.nonEmpty target); [|exact Hs].
  destruct (newURL authority target).
  - destruct thrown; simpl;
      (split; [by destruct (listener s) |]); right; right; by apply settle_not_pending.
  - split; [done |]. left. by eexists.
Qed.

Lemma step_bounded (s : receiver) (ev : event) : bounded s -> bounded (step action s ev).
Proof.
  intros Hs. pose proof Hs as [Hl Hb]. unfold step.
  destruct (crashed s) eqn:Hcr; [exact Hs |].
  destruct ev as [port|url authority thrown|r|].
  - destruct (listener s); [by destruct Hl | exact Hs | exact Hs].
  - pose proof (onRequest_bounded url authority thrown s Hs) as Hnext.
    by destruct (listener s).
  - destruct (commands s); [exact Hs |]. unfold onOpenSettled.
    destruct (executeURL r); simpl; [exact Hs |].
    split; [done |]. right. right. by apply settle_not_pending.
  - destruct (timer s); [|exact Hs]. split; simpl.
    + by destruct (listener s).
    + right. right. by apply settle_not_pending.
Qed.

Lemma run_bounded (evs : list event) (s : receiver) : bounded s -> bounded (run action s evs).
Proof.
  revert s. induction evs as [|ev evs IH]; intros s Hs; [done |].
  apply IH, step_bounded, Hs.
Qed.

Lemma bounded_started (p : params) (port : option N) :
  bounded (step action (start p) (Listening port)).
Proof.
  unfold step, start, onListening. simpl. destruct port as [n|]; simpl.
  - destruct (buildBearURL action _); simpl.
    + split; [done |]. right. left. by eexists.
    + split; [done |]. left. by eexists.
  - split; [done |]. right. by right.
Qed.

End Settled.

(** X11.  The first outcome wins: once the promise of a call is resolved or
    rejected, no later event (a second request, a late failure of the
    dispatch, the timer firing after a callback) changes it. *)
Theorem first_outcome_wins (action : string) (s : receiver) (evs : list event) :
  promise s <> Pending -> promise (run action s evs) = promise s.
Proof. apply run_settled. Qed.

Lemma first_outcome_wins_witness :
  let s := run "search" (start [("term", PStr "foo")])
             [Listening (Some 49152%N); Request (Some "/callback?title=a") false None] in
  promise s = Resolved (<["title" := JStr "a"]> ∅)
  /\ promise (run "search" s
                [OpenSettled (ExecError "late"); Request (Some "/x?title=b") false None;
                 TimerFired])
     = Resolved (<["title" := JStr "a"]> ∅).
Proof.
  intros s.
  assert (promise s = Resolved (<["title" := JStr "a"]> ∅)) as Hs by (vm_compute; reflexivity).
  split; [exact Hs |]. rewrite <- Hs.
  apply (first_outcome_wins "search" s). rewrite Hs. discriminate.
Defined.

(** X12.  A callback-bearing call never waits beyond the timer: once the
    listen callback has run, the promise is settled at the latest when the
    timer fires, whatever else has happened in between, in a process that
    is still running then. *)
Theorem call_settled_when_timer_fires
    (action : string) (p : params) (port : option N) (evs more : list event) :
  crashed (run action (start p) (Listening port :: evs)) = None ->
  promise (run action (start p) (Listening port :: evs ++ TimerFired :: more)) <> Pending.
Proof.
  rewrite !(run_cons action (Listening port)), run_app, (run_cons action TimerFired).
  pose proof (run_bounded action evs _ (bounded_started action p port)) as [Hl Hb].
  set (s2 := run action (step action (start p) (Listening port)) evs) in *. clearbody s2.
  intros Hcr.
  assert (promise (step action s2 TimerFired) <> Pending) as Hfired.
  { unfold step. rewrite Hcr.
    destruct Hb as [[e He] | [[ms Hms] | Hp]]; [congruence | rewrite Hms |].
    - simpl. by apply settle_not_pending.
    - destruct (timer s2); [|done]. simpl. by apply settle_not_pending. }
  by rewrite run_settled.
Qed.

Lemma call_settled_when_timer_fires_witness :
  crashed (run "tags" (start [("token", PStr "t")])
             (Listening (Some 49152%N) :: [OpenSettled (ExecDone "" "")])) = None
  /\ promise (run "tags" (start [("token", PStr "t")])
                (Listening (Some 49152%N) :: [OpenSettled (ExecDone "" "")] ++ TimerFired :: []))
     = Rejected (Error "Callback timeout")
  /\ promise (run "tags" (start [("token", PStr "t")])
                (Listening (Some 49152%N) :: [OpenSettled (ExecDone "" "")] ++ TimerFired :: []))
     <> Pending.
Proof.
  assert (crashed (run "tags" (start [("token", PStr "t")])
                     (Listening (Some 49152%N) :: [OpenSettled (ExecDone "" "")])) = None)
    as Halive by (vm_compute; reflexivity).
  split; [exact Halive |]. split; [vm_compute; reflexivity |].
  exact (call_settled_when_timer_fires "tags" [("token", PStr "t")] (Some 49152%N)
           [OpenSettled (ExecDone "" "")] [] Halive).
Defined.

Section Listening.

Variable action : string.

Lemma step_listening (url : string) (s : receiver) (ev : event) :
  isRequest ev = false -> isOpenFailure ev = false -> isTimer ev = false ->
  listening url s -> step action s ev = s.
Proof.
  intros Hrequest Hfailure Htimer (Ht & Hl & Hp & Hr & Hcr & Hc).
  unfold step. rewrite Hcr.
  destruct ev as [port|target authority thrown|r|]; simpl in *; try done.
  - by rewrite Hl.
  - rewrite Hc. unfold onOpenSettled. by destruct (executeURL r).
Qed.

Lemma run_listening (url : string) (evs : list event) (s : receiver) :
  Forall (fun ev => isRequest ev = false) evs ->
  Forall (fun ev => isOpenFailure ev = false) evs ->
  Forall (fun ev => isTimer ev = false) evs ->
  listening url s -> run action s evs = s.
Proof.
  intros Hrequest Hfailure Htimer Hs.
  induction evs as [|ev evs IH]; [done |].
  apply Forall_cons in Hrequest as [Hr Hrequest].
  apply Forall_cons in Hfailure as [Hf Hfailure].
  apply Forall_cons in Htimer as [Ht Htimer].
  rewrite run_cons, (step_listening url) by done. by apply IH.
Qed.

Lemma listening_started (p : params) (port : N) (url : string) :
  buildBearURL action (setParam "x-success" (PStr (callbackUrl port)) p) = inl url ->
  listening url (step action (start p) (Listening (Some port))).
Proof. intros Hurl. rewrite (step_listening_built action p port url Hurl). by repeat split. Qed.

Lemma step_failedOpen (e : jserror) (s : receiver) (ev : event) :
  isRequest ev = false -> isTimer ev = false ->
  failedOpen e s -> failedOpen e (step action s ev).
Proof.
  intros Hrequest Htimer Hs. pose proof Hs as (Ht & Hl & Hp & Hcr).
  unfold step. rewrite Hcr.
  destruct ev as [port|target authority thrown|r|]; simpl in *; try done.
  - by rewrite Hl.
  - destruct (commands s); [done |]. unfold onOpenSettled.
    destruct (executeURL r); [done |]. repeat split; simpl; try done.
    by rewrite Hp.
Qed.

Lemma run_failedOpen (e : jserror) (evs : list event) (s : receiver) :
  Forall (fun ev => isRequest ev = false) evs ->
  Forall (fun ev => isTimer ev = false) evs ->
  failedOpen e s -> failedOpen e (run action s evs).
Proof.
  revert s. induction evs as [|ev evs IH]; intros s Hrequest Htimer Hs; [done |].
  apply Forall_cons in Hrequest as [Hr Hrequest].
  apply Forall_cons in Htimer as [Ht Htimer].
  apply IH; [done | done |]. by apply step_failedOpen.
Qed.

End Listening.

(** X13.  The success path as a whole.  After the listen callback has
    built and opened the URL without failure, the first request (its
    target accepted by the URL parser, nothing thrown) resolves the call
    with the data decoded from the query of the target, is answered with
    status 200 and the window-closing page, and closes the listener; the
    one command issued is [open] on the URL built from the parameters plus
    [x-success]. *)
Theorem callback_resolves_call
    (action : string) (p : params) (port : N) (evs : list event)
    (target : string) (authority : bool) (url query : string) :
  buildBearURL action (setParam "x-success" (PStr (callbackUrl port)) p) = inl url ->
  Forall (fun ev => isRequest ev = false) evs ->
  Forall (fun ev => isOpenFailure ev = false) evs ->
  Forall (fun ev => isTimer ev = false) evs ->
  JS.nonEmpty target = true ->
  newURL authority target = Some query ->
  let s := run action (start p)
             (Listening (Some port) :: evs ++ [Request (Some target) authority None]) in
  promise s = Resolved (decodeQuery query)
  /\ listener s = Closed
  /\ responses s = [(200%N, CloseWindowHtml)]
  /\ commands s = [openCommand url]
  /\ crashed s = None.
Proof.
  intros Hurl Hrequest Hfailure Htimer Htarget Hquery s. subst s.
  pose proof (listening_started action p port url Hurl) as Hs.
  rewrite run_cons, run_app, (run_listening action url evs _ Hrequest Hfailure Htimer Hs).
  destruct Hs as (Ht & Hl & Hp & Hr & Hcr & Hc).
  change (run action ?s [?ev]) with (step action s ev).
  rewrite (step_request_pending action _ target authority query); simpl;
    rewrite ?Hl, ?Hr, ?Hc; done.
Qed.

Lemma callback_resolves_call_witness :
  let evs := [OpenSettled (ExecDone "" "")] in
  let s := run "search" (start [("term", PStr "foo")])
             (Listening (Some 49152%N)
              :: evs ++ [Request (Some "/callback?notes=%5B%5D") false None]) in
  buildBearURL "search"
    (setParam "x-success" (PStr (callbackUrl 49152)) [("term", PStr "foo")])
  = inl "bear://x-callback-url/search?term=foo&x-success=http%3A%2F%2Flocalhost%3A49152%2Fcallback"
  /\ Forall (fun ev => isRequest ev = false) evs
  /\ JS.nonEmpty "/callback?notes=%5B%5D" = true
  /\ newURL false "/callback?notes=%5B%5D" = Some "notes=%5B%5D"
  /\ promise s = Resolved (decodeQuery "notes=%5B%5D")
  /\ decodeQuery "notes=%5B%5D" = <["notes" := JArr []]> ∅
  /\ listener s = Closed.
Proof.
  intros evs s.
  assert (buildBearURL "search"
            (setParam "x-success" (PStr (callbackUrl 49152)) [("term", PStr "foo")])
          = inl "bear://x-callback-url/search?term=foo&x-success=http%3A%2F%2Flocalhost%3A49152%2Fcallback")
    as Hurl by (vm_compute; reflexivity).
  assert (Forall (fun ev => isRequest ev = false) evs) as H1 by (repeat constructor).
  assert (Forall (fun ev => isOpenFailure ev = false) evs) as H2 by (repeat constructor).
  assert (Forall (fun ev => isTimer ev = false) evs) as H3 by (repeat constructor).
  assert (newURL false "/callback?notes=%5B%5D" = Some "notes=%5B%5D") as Hquery
    by (vm_compute; reflexivity).
  destruct (callback_resolves_call "search" [("term", PStr "foo")] 49152%N evs
              "/callback?notes=%5B%5D" false _ _ Hurl H1 H2 H3 eq_refl Hquery)
    as (Hp & Hl & _).
  split; [exact Hurl |]. split; [exact H1 |]. split; [reflexivity |].
  split; [exact Hquery |]. split; [exact Hp |].
  split; [by vm_compute | exact Hl].
Defined.

(** X16.  When the dispatch of the URL fails, the call is rejected at once
    with the dispatch error, but the listener is not closed then: it stays
    open, with the timer pending, until a request comes in or the timer
    fires. *)
Theorem listener_open_after_dispatch_failure
    (action : string) (p : params) (port : N) (url : string) (r : execResult) (e : jserror)
    (evs : list event) :
  buildBearURL action (setParam "x-success" (PStr (callbackUrl port)) p) = inl url ->
  executeURL r = inr e ->
  Forall (fun ev => isRequest ev = false) evs ->
  Forall (fun ev => isTimer ev = false) evs ->
  let s := run action (start p) (Listening (Some port) :: OpenSettled r :: evs) in
  promise s = Rejected e
  /\ listener s = Open
  /\ timer s = Some 10000%N
  /\ listener (run action s [TimerFired]) = Closed.
Proof.
  intros Hurl Hr Hrequest Htimer s. subst s.
  rewrite (run_cons action (Listening (Some port))), (run_cons action (OpenSettled r)).
  assert (failedOpen e (step action (step action (start p) (Listening (Some port)))
                          (OpenSettled r))) as Hfailed.
  { rewrite (step_listening_built action p port url Hurl).
    unfold step. simpl. unfold onOpenSettled. rewrite Hr. by repeat split. }
  destruct (run_failedOpen action e evs _ Hrequest Htimer Hfailed) as (Ht & Hl & Hp & Hcr).
  set (s2 := run action _ evs) in *. clearbody s2.
  split; [done |]. split; [done |]. split; [done |].
  change (listener (step action s2 TimerFired) = Closed).
  unfold step. rewrite Hcr, Ht. simpl. by rewrite Hl.
Qed.

Lemma listener_open_after_dispatch_failure_witness :
  let r := ExecDone "" "LSOpenURLsWithRole() failed" in
  let s := run "tags" (start [("token", PStr "t")])
             (Listening (Some 49152%N) :: OpenSettled r :: []) in
  buildBearURL "tags" (setParam "x-success" (PStr (callbackUrl 49152)) [("token", PStr "t")])
  = inl "bear://x-callback-url/tags?token=t&x-success=http%3A%2F%2Flocalhost%3A49152%2Fcallback"
  /\ executeURL r
     = inr (McpError InternalError
              "Failed to execute Bear URL: Bear command failed: LSOpenURLsWithRole() failed")
  /\ promise s
     = Rejected (McpError InternalError
                   "Failed to execute Bear URL: Bear command failed: LSOpenURLsWithRole() failed")
  /\ listener s = Open.
Proof.
  intros r s.
  assert (buildBearURL "tags"
            (setParam "x-success" (PStr (callbackUrl 49152)) [("token", PStr "t")])
          = inl "bear://x-callback-url/tags?token=t&x-success=http%3A%2F%2Flocalhost%3A49152%2Fcallback")
    as Hurl by (vm_compute; reflexivity).
  assert (executeURL r
          = inr (McpError InternalError
                   "Failed to execute Bear URL: Bear command failed: LSOpenURLsWithRole() failed"))
    as Hr by reflexivity.
  destruct (listener_open_after_dispatch_failure "tags" [("token", PStr "t")] 49152%N _ r _ []
              Hurl Hr ltac:(constructor) ltac:(constructor)) as (Hp & Hl & _).
  split; [exact Hurl |]. split; [exact Hr |]. split; [exact Hp | exact Hl].
Defined.

Section Target.

Import JS.

Lemma splitFirst_absent (sep : ascii) (s : string) :
  occurs sep s = false -> splitFirst sep s = (s, "").
Proof.
  induction s as [|c s IH]; simpl; [done |].
  destruct (ascii_eqb c sep); simpl; [done |].
  intros H. by rewrite (IH H).
Qed.

Lemma urlSearch_query (path query : string) :
  occurs "?" path = false -> occurs "#" path = false -> occurs "#" query = false ->
  urlSearch (path +:+ String "?" query) = query.
Proof.
  intros Hq Hpath Hquery. unfold urlSearch.
  rewrite (splitFirst_absent "#").
  - cbv beta iota delta [fst]. by rewrite splitFirst_append.
  - rewrite occurs_append. simpl. by rewrite Hpath, Hquery.
Qed.

Lemma urlSearch_none (target : string) :
  occurs "?" target = false -> urlSearch target = "".
Proof.
  intros Hq. unfold urlSearch.
  destruct (splitFirst "#" target) as [before after] eqn:Hsplit. simpl.
  assert (occurs "?" before = false) as Hbefore.
  { revert before after Hsplit Hq. induction target as [|c target IH]; simpl.
    - by intros before after [= <- <-].
    - intros before after. destruct (ascii_eqb c "#"); [by intros [= <- <-] |].
      destruct (splitFirst "#" target) as [b a]. intros [= <- <-] Hq.
      apply orb_false_iff in Hq as [Hc Hq]. simpl. rewrite Hc. simpl. by apply (IH b a). }
  by rewrite splitFirst_absent.
Qed.

Lemma dropTrailing_plain (s : string) : plain s = true -> dropTrailing s = s.
Proof.
  unfold plain. induction s as [|c s IH]; simpl; [done |].
  intros Hs. apply andb_true_iff in Hs as [Hc Hs]. rewrite (IH Hs).
  apply negb_true_iff in Hc. rewrite Hc. by destruct s.
Qed.

Lemma removeTabNewline_plain (s : string) : plain s = true -> removeTabNewline s = s.
Proof.
  unfold plain. induction s as [|c s IH]; simpl; [done |].
  intros Hs. apply andb_true_iff in Hs as [Hc Hs]. rewrite (IH Hs).
  assert (isTabOrNewline c = false) as ->; [|done].
  apply negb_true_iff in Hc. revert Hc.
  destruct c as [[] [] [] [] [] [] [] []]; by vm_compute.
Qed.

Lemma urlInput_plain (s : string) : plain s = true -> urlInput s = s.
Proof.
  intros Hs. unfold urlInput.
  assert (dropLeading s = s) as ->.
  { destruct s as [|c s]; [done |]. simpl. unfold plain in Hs. simpl in Hs.
    apply andb_true_iff in Hs as [Hc _]. apply negb_true_iff in Hc. by rewrite Hc. }
  by rewrite dropTrailing_plain, removeTabNewline_plain.
Qed.

Lemma plain_append (a b : string) : plain (a +:+ b) = plain a && plain b.
Proof. apply allChars_append. Qed.

(** A target in origin form has neither scheme nor authority: the URL
    parser accepts it whatever its path is. *)
Lemma newURL_originForm (authority : bool) (target : string) :
  plain target = true -> originForm target = true ->
  newURL authority target = Some (urlSearch target).
Proof.
  intros Hplain Horigin. unfold newURL. rewrite (urlInput_plain _ Hplain). cbv zeta.
  assert (hasScheme target = false) as ->.
  { destruct target as [|a rest]; [done |]. simpl in *.
    apply andb_true_iff in Horigin as [Ha _]. unfold ascii_eqb in Ha.
    apply Ascii.eqb_eq in Ha as ->. done. }
  assert (startsAuthority target = false) as ->; [|done].
  destruct target as [|a [|b rest]]; [done | done |]. simpl in *.
  apply andb_true_iff in Horigin as [_ Hb]. apply negb_true_iff in Hb.
  by rewrite Hb, andb_false_r.
Qed.

Lemma originForm_append (path rest : string) :
  originForm path = true -> isSlash "?" = false ->
  originForm (path +:+ String "?" rest) = true.
Proof.
  intros Hpath _. destruct path as [|a [|b path]]; [done | |]; simpl in *.
  - by rewrite andb_true_r in *.
  - done.
Qed.

End Target.

(** X14.  The receiver does not look at the path of a request: whatever
    the path of a target in origin form is, the request resolves a pending
    call with the data decoded from its query alone and closes the
    listener; a target without any query resolves it with the empty
    object. *)
Theorem request_path_ignored
    (action : string) (s : receiver) (path query : string) (authority : bool) :
  listener s <> Created -> crashed s = None ->
  originForm path = true -> plain path = true -> plain query = true ->
  JS.occurs "?" path = false -> JS.occurs "#" path = false ->
  JS.occurs "#" query = false ->
  promise (step action s (Request (Some (path +:+ String "?" query)) authority None))
  = settle (Resolved (decodeQuery query)) (promise s)
  /\ listener (step action s (Request (Some (path +:+ String "?" query)) authority None))
     = Closed
  /\ promise (step action s (Request (Some path) authority None))
     = settle (Resolved ∅) (promise s).
Proof.
  intros Hl Hcr Horigin Hpath Hplain Hq Hhash Hquery.
  assert (JS.nonEmpty (path +:+ String "?" query) = true) as Hne by (by destruct path).
  assert (JS.nonEmpty path = true) as Hne' by (by destruct path).
  assert (newURL authority (path +:+ String "?" query) = Some query) as Hurl.
  { rewrite newURL_originForm, urlSearch_query; try done.
    - change (String "?" query) with ("?" +:+ query).
      by rewrite !plain_append, Hpath, Hplain.
    - by apply originForm_append. }
  assert (newURL authority path = Some "") as Hurl'
    by (by rewrite newURL_originForm, urlSearch_none).
  unfold step. rewrite Hcr.
  split; [|split].
  - destruct (listener s); [done | |]; unfold onRequest; by rewrite Hne, Hurl.
  - destruct (listener s) eqn:E; [done | |]; unfold onRequest; rewrite Hne, Hurl; simpl;
      by rewrite E.
  - destruct (listener s); [done | |]; unfold onRequest; by rewrite Hne', Hurl'.
Qed.

Lemma request_path_ignored_witness :
  let s := run "search" (start []) [Listening (Some 49152%N)] in
  listener s <> Created /\ crashed s = None
  /\ originForm "/favicon.ico" = true
  /\ promise (step "search" s (Request (Some "/favicon.ico?title=x") false None))
     = Resolved (<["title" := JStr "x"]> ∅)
  /\ promise (step "search" s (Request (Some "/favicon.ico") false None)) = Resolved ∅.
Proof.
  intros s.
  assert (listener s <> Created) as Hl by (vm_compute; discriminate).
  assert (crashed s = None) as Hcr by (vm_compute; reflexivity).
  destruct (request_path_ignored "search" s "/favicon.ico" "title=x" false Hl Hcr
              eq_refl eq_refl eq_refl eq_refl eq_refl eq_refl)
    as (Hquery & _ & Hnone).
  split; [exact Hl |]. split; [exact Hcr |]. split; [reflexivity |].
  split; [exact Hquery | exact Hnone].
Defined.

Section Dispatched.

Variable action : string.
Variable p : params.

Lemma onRequest_started (url : option string) (authority : bool) (thrown : option string)
    (s : receiver) :
  listener s <> Created ->
  listener (onRequest url authority thrown s) <> Created
  /\ commands (onRequest url authority thrown s) = commands s.
Proof.
  intros Hl. unfold onRequest. destruct url as [target|]; [|done].
  destruct (JS.nonEmpty target); [|done].
  destruct (newURL authority target); [|done].
  destruct thrown; simpl; by destruct (listener s).
Qed.

Lemma step_started (s : receiver) (ev : event) :
  listener s <> Created ->
  listener (step action s ev) <> Created /\ commands (step action s ev) = commands s.
Proof.
  intros Hl. unfold step. destruct (crashed s); [done |].
  destruct ev as [port|url authority thrown|r|].
  - destruct (listener s) eqn:E; [by destruct Hl | by rewrite E | by rewrite E].
  - pose proof (onRequest_started url authority thrown s Hl) as Hnext.
    destruct (listener s) eqn:E; [by destruct Hl | done | done].
  - destruct (commands s) eqn:Hc; [done |]. unfold onOpenSettled.
    destruct (executeURL r); [by rewrite Hc | done].
  - destruct (timer s); [|done]. simpl. by destruct (listener s).
Qed.

Lemma step_dispatchedOnce (s : receiver) (ev : event) :
  dispatchedOnce action p s -> dispatchedOnce action p (step action s ev).
Proof.
  intros [(Hcreated & Hc & Hp) | [Hstarted Hs]].
  - unfold step. destruct (crashed s); [by left |].
    destruct ev as [port|url authority thrown|r|]; rewrite ?Hcreated, ?Hc.
    + right. destruct port as [n|]; simpl.
      * rewrite Hp. destruct (buildBearURL action _) as [url|e] eqn:Hurl; simpl.
        -- split; [done |]. right. exists n, url. by rewrite Hc.
        -- split; [done |]. by left.
      * split; [done |]. by left.
    + by left.
    + by left.
    + destruct (timer s); [|by left]. left. simpl. by rewrite Hcreated.
  - right. destruct (step_started s ev Hstarted) as [Hl Hc]. split; [done |].
    by rewrite Hc.
Qed.

Lemma run_dispatchedOnce (evs : list event) (s : receiver) :
  dispatchedOnce action p s -> dispatchedOnce action p (run action s evs).
Proof.
  revert s. induction evs as [|ev evs IH]; intros s Hs; [done |].
  apply IH, step_dispatchedOnce, Hs.
Qed.

End Dispatched.

(** X15.  At most one command is ever handed to [exec] in a
    callback-bearing call, and not before the listener has its address:
    it is [open] on the URL built from the caller's parameters with
    [x-success] set to the listener's address.  That URL has exactly one
    [x-success] pair, and its value percent-decodes to
    [http://localhost:<port>/callback]. *)
Theorem dispatch_carries_callback_address
    (action : string) (p : params) (evs : list event) :
  NoDup p.*1 ->
  let s := run action (start p) evs in
  (listener s = Created -> commands s = [])
  /\ (commands s = []
      \/ exists port url query,
           let q := setParam "x-success" (PStr (callbackUrl port)) p in
           buildBearURL action q = inl url
           /\ queryString q = Some query
           /\ commands s = [openCommand url]
           /\ occurrences "x-success" (rawPairs query) = 1
           /\ exists value,
                ("x-success", value) ∈ rawPairs query
                /\ JS.percentDecode value = callbackUrl port).
Proof.
  intros Hnd s.
  assert (dispatchedOnce action p s) as Hs
    by (apply run_dispatchedOnce; left; by repeat split).
  clearbody s. split.
  - intros Hl. by destruct Hs as [(_ & Hc & _) | [Hstarted _]].
  - destruct Hs as [(_ & Hc & _) | [_ [Hc | (port & url & Hurl & Hc)]]];
      [by left | by left |].
    right. exists port, url, (encodedQuery (setParam "x-success" (PStr (callbackUrl port)) p)).
    cbv zeta. set (q := setParam "x-success" (PStr (callbackUrl port)) p) in *.
    split; [done |].
    split; [by apply buildBearURL_inl in Hurl as (_ & ? & _) |].
    split; [done |].
    assert (NoDup q.*1) as Hq by (by apply setParam_NoDup).
    assert (("x-success", PStr (callbackUrl port)) ∈ q) as Hin.
    { apply getParam_Some. unfold q. by rewrite getParam_setParam, String.eqb_refl. }
    rewrite rawPairs_encodedQuery.
    change "x-success" with (JS.percentEncode "x-success").
    rewrite occurrences_encodedPairs, (unique_key_count _ _ q Hq Hin). split; [done |].
    exists (JS.percentEncode (callbackUrl port)). split.
    + by apply (elem_of_encodedPairs "x-success" (PStr (callbackUrl port))).
    + apply percentDecode_percentEncode.
Qed.

Lemma dispatch_carries_callback_address_witness :
  let p := [("term", PStr "foo"); ("x-success", PStr "bear://elsewhere")] in
  let s := run "search" (start p) [Listening (Some 49152%N); OpenSettled (ExecDone "" "")] in
  NoDup p.*1
  /\ commands s
     = [openCommand
          "bear://x-callback-url/search?term=foo&x-success=http%3A%2F%2Flocalhost%3A49152%2Fcallback"]
  /\ (commands s = []
      \/ exists port url query,
           let q := setParam "x-success" (PStr (callbackUrl port)) p in
           buildBearURL "search" q = inl url
           /\ queryString q = Some query
           /\ commands s = [openCommand url]
           /\ occurrences "x-success" (rawPairs query) = 1
           /\ exists value,
                ("x-success", value) ∈ rawPairs query
                /\ JS.percentDecode value = callbackUrl port).
Proof.
  intros p s.
  assert (NoDup p.*1) as Hnd by (apply (bool_decide_unpack _); vm_compute; exact I).
  split; [exact Hnd |]. split; [vm_compute; reflexivity |].
  exact (proj2 (dispatch_carries_callback_address "search" p
                  [Listening (Some 49152%N); OpenSettled (ExecDone "" "")] Hnd)).
Defined.

(** ** The decoded object *)

(** X17.  The object the decoder returns holds, under every key of the
    query other than [__proto__], the value the rules give for the last
    pair with that key (a repeated key overwrites), and nothing under a key
    the query does not have; [__proto__] is never a property of it. *)
Theorem decoded_object_holds_last_values (query key : string) :
  key <> "__proto__" ->
  decodeQuery query !! key = decodeByTable key <$> lastValue key (JS.parseUrlencoded query)
  /\ decodeQuery query !! "__proto__" = None
  /\ (lastValue key (JS.parseUrlencoded query) = None -> decodeQuery query !! key = None).
Proof.
  intros Hkey. unfold decodeQuery.
  split; [by apply decodeEntries_lookup |]. split; [apply decodeEntries_proto |].
  intros Hnone. by rewrite decodeEntries_lookup, Hnone.
Qed.

Lemma decoded_object_holds_last_values_witness :
  let query := "pin=yes&title=a&pin=no&__proto__=x" in
  "pin" <> "__proto__"
  /\ lastValue "pin" (JS.parseUrlencoded query) = Some "no"
  /\ decodeQuery query !! "pin" = Some (JBool false)
  /\ decodeQuery query !! "__proto__" = None.
Proof.
  intros query.
  assert ("pin" <> "__proto__") as Hkey by discriminate.
  destruct (decoded_object_holds_last_values query "pin" Hkey) as (Hlast & Hproto & _).
  split; [exact Hkey |]. split; [vm_compute; reflexivity |].
  split; [exact Hlast | exact Hproto].
Defined.

(** ** Where the process ends *)

Lemma newURL_None (authority : bool) (target : string) :
  newURL authority target = None ->
  authority = false
  /\ (JS.hasScheme (JS.urlInput target) = true
      \/ JS.startsAuthority (JS.urlInput target) = true).
Proof.
  unfold newURL. cbv zeta.
  destruct (JS.hasScheme _) eqn:Hscheme, (JS.startsAuthority _) eqn:Hauthority;
    destruct authority; simpl; try done; auto.
Qed.

(** X18.  When the parameters cannot be encoded, the listen callback
    throws before it opens anything or sets the timer, and nothing catches
    it: the process ends with the [URIError], no command has been issued,
    no timer is pending, and the promise of the call is never settled,
    whatever happens afterwards. *)
Theorem unencodable_parameters_end_process
    (action : string) (p : params) (port : N) (e : jserror) (evs : list event) :
  buildBearURL action (setParam "x-success" (PStr (callbackUrl port)) p) = inr e ->
  let s := run action (start p) (Listening (Some port) :: evs) in
  crashed s = Some (URIError "URI malformed")
  /\ promise s = Pending
  /\ commands s = []
  /\ timer s = None
  /\ responses s = []
  /\ listener s = Closed.
Proof.
  intros Hurl s. subst s. rewrite run_cons.
  assert (step action (start p) (Listening (Some port))
          = crash (URIError "URI malformed")
              (Receiver Open Pending None
                 (setParam "x-success" (PStr (callbackUrl port)) p) [] [] None)) as ->.
  { unfold step, start, onListening. simpl.
    destruct (buildBearURL_inr _ _ _ Hurl) as [_ ->]. by rewrite Hurl. }
  rewrite run_crashed; [done | by eexists].
Qed.

Lemma unencodable_parameters_end_process_witness :
  let p := [("term", PStr loneSurrogate)] in
  let s := run "search" (start p)
             [Listening (Some 49152%N); Request (Some "/callback?title=a") false None;
              TimerFired] in
  buildBearURL "search" (setParam "x-success" (PStr (callbackUrl 49152)) p)
  = inr (URIError "URI malformed")
  /\ crashed s = Some (URIError "URI malformed")
  /\ promise s = Pending.
Proof.
  intros p s.
  assert (buildBearURL "search" (setParam "x-success" (PStr (callbackUrl 49152)) p)
          = inr (URIError "URI malformed")) as Hurl by (vm_compute; reflexivity).
  destruct (unencodable_parameters_end_process "search" p 49152%N _
              [Request (Some "/callback?title=a") false None; TimerFired] Hurl)
    as (Hcr & Hp & _).
  split; [exact Hurl |]. split; [exact Hcr | exact Hp].
Defined.

(** X19.  A request whose target the URL parser rejects is fatal: [new
    URL] throws before the [try], so neither the 200 nor the 500 answer is
    written, the promise is left as it was, and the process ends with the
    [TypeError]; nothing that comes later changes that.  Only a target
    with a scheme or an authority can be rejected. *)
Theorem rejected_target_ends_process
    (action : string) (s : receiver) (target : string) (authority : bool)
    (thrown : option string) (evs : list event) :
  listener s <> Created -> crashed s = None ->
  JS.nonEmpty target = true ->
  newURL authority target = None ->
  let s' := run action s (Request (Some target) authority thrown :: evs) in
  crashed s' = Some (TypeError "Invalid URL")
  /\ promise s' = promise s
  /\ responses s' = responses s
  /\ commands s' = commands s
  /\ timer s' = None
  /\ (JS.hasScheme (JS.urlInput target) = true
      \/ JS.startsAuthority (JS.urlInput target) = true).
Proof.
  intros Hl Hcr Htarget Hurl s'. subst s'. rewrite run_cons.
  assert (step action s (Request (Some target) authority thrown)
          = crash (TypeError "Invalid URL") s) as ->.
  { unfold step. rewrite Hcr.
    destruct (listener s); [done | |]; unfold onRequest; by rewrite Htarget, Hurl. }
  rewrite run_crashed by (by eexists).
  repeat split; try done. by destruct (newURL_None authority target Hurl).
Qed.

Lemma rejected_target_ends_process_witness :
  let s := run "search" (start [("term", PStr "foo")]) [Listening (Some 49152%N)] in
  let s' := run "search" s [Request (Some "http://[::1/p?x=1") false None; TimerFired] in
  listener s <> Created /\ crashed s = None
  /\ newURL false "http://[::1/p?x=1" = None
  /\ crashed s' = Some (TypeError "Invalid URL")
  /\ promise s' = Pending
  /\ responses s' = [].
Proof.
  intros s s'.
  assert (listener s <> Created) as Hl by (vm_compute; discriminate).
  assert (crashed s = None) as Hcr by (vm_compute; reflexivity).
  assert (newURL false "http://[::1/p?x=1" = None) as Hurl by (vm_compute; reflexivity).
  destruct (rejected_target_ends_process "search" s "http://[::1/p?x=1" false None
              [TimerFired] Hl Hcr eq_refl Hurl) as (Hdead & Hp & Hr & _).
  split; [exact Hl |]. split; [exact Hcr |]. split; [exact Hurl |].
  split; [exact Hdead |]. split; [exact Hp | exact Hr].
Defined.

(** ** Failures of a tool call *)

Lemma find_absent {A : Type} (f : A -> bool) (l : list A) :
  Forall (fun x => f x = false) l -> find f l = None.
Proof. induction 1 as [|x l Hx _ IH]; simpl; [done |]. by rewrite Hx. Qed.

Lemma callTool_Throw (this : BearMCPServer) (name : string) (args : arguments) (e : jserror) :
  callTool this name args = Throw e -> exists cause, e = toolFailure cause.
Proof.
  unfold callTool. cbv zeta.
  destruct (find (fun t => String.eqb (toolName t) name) tools) as [t|].
  - destruct (handler t args) as [cause|]; [|discriminate]. intros [= <-]. by eexists.
  - intros [= <-]. by eexists.
Qed.

Section Causes.

Variable action : string.







End Causes.




(** X10.  A name that is not one of the sixteen tool names dispatches
    nothing: the call fails with the method-not-found message, wrapped as
    an internal error like every other failure, whatever the arguments and
    the environment are. *)
Theorem unknown_tool_rejected
    (this : BearMCPServer) (name : string) (args : arguments)
    (r : execResult) (evs : list event) :
  name ∉ (toolName <$> tools) ->
  callTool this name args
  = Throw (McpError InternalError
             ("Tool execution failed: MCP error -32601: Unknown tool: " +:+ name))
  /\ callToolResult this name args r evs
     = Thrown (McpError InternalError
                 ("Tool execution failed: MCP error -32601: Unknown tool: " +:+ name)).
Proof.
  intros Hname.
  assert (find (fun t => String.eqb (toolName t) name) tools = None) as Hfind.
  { apply find_absent, Forall_forall. intros t Ht.
    apply String.eqb_neq. intros <-. apply Hname.
    apply list_elem_of_fmap. by exists t. }
  split.
  - unfold callTool. by rewrite Hfind.
  - unfold callToolResult. by rewrite Hfind.
Qed.

Lemma unknown_tool_rejected_witness :
  ("bear_export" ∉ toolName <$> tools)
  /\ callTool (newServer ∅) "bear_export" (Some ∅)
     = Throw (McpError InternalError
                "Tool execution failed: MCP error -32601: Unknown tool: bear_export").
Proof.
  assert ("bear_export" ∉ (toolName <$> tools)) as Hname
    by (apply (bool_decide_unpack _); vm_compute; exact I).
  split; [exact Hname |].
  exact (proj1 (unknown_tool_rejected (newServer ∅) "bear_export" (Some ∅)
                  (ExecDone "" "") [] Hname)).
Defined.
